(** * Veo prompt generator: the request-construction and response-validation
    core, [generateVeoPrompt] of the service module (src/types.ts, lines
    475-619), and its caller [handleGenerate] of the [App] component
    (src/types.ts, lines 180-206).

    Strings are JavaScript strings: finite sequences of UTF-16 code units.
    The outbound call and the JavaScript engine's built-ins are the only
    effects; they are recorded in an event trace. *)

From Stdlib Require Import Ascii String List NArith Bool Lia Arith.
Import ListNotations.

#[local] Set Warnings "-register-all".

Local Open Scope N_scope.
Local Open Scope list_scope.

(* ================================================================== *)
(** ** JavaScript strings *)

(** A string is its sequence of UTF-16 code units. *)
Definition jsstring : Type := list N.

(** An ASCII literal of the source, code unit by code unit. *)
Fixpoint lit (s : string) : jsstring :=
  match s with
  | EmptyString => []
  | String a r => N_of_ascii a :: lit r
  end.

Definition LF : N := 10.          (* "\n" *)
Definition DQUOTE : N := 34.      (* the quotation mark *)
Definition EN_DASH : N := 8211.   (* U+2013, the dash of the timeline lines *)

Fixpoint str_eqb (a b : jsstring) : bool :=
  match a, b with
  | [], [] => true
  | x :: a', y :: b' => (x =? y) && str_eqb a' b'
  | _, _ => false
  end.

(** ToBoolean on a string: the empty string is the only falsy one. *)
Definition truthy (s : jsstring) : bool :=
  match s with
  | [] => false
  | _ :: _ => true
  end.

(** [a || b] on strings. *)
Definition or_else (a b : jsstring) : jsstring :=
  if truthy a then a else b.

(** ECMAScript WhiteSpace: TAB, VT, FF, ZWNBSP and the Space_Separator
    category. *)
Definition isWhiteSpace (c : N) : bool :=
  (c =? 9) || (c =? 11) || (c =? 12) || (c =? 32) || (c =? 160)
  || (c =? 5760) || ((8192 <=? c) && (c <=? 8202))
  || (c =? 8239) || (c =? 8287) || (c =? 12288) || (c =? 65279).

(** ECMAScript LineTerminator: LF, CR, LS, PS. *)
Definition isLineTerminator (c : N) : bool :=
  (c =? 10) || (c =? 13) || (c =? 8232) || (c =? 8233).

Definition isTrimmed (c : N) : bool := isWhiteSpace c || isLineTerminator c.

Fixpoint trimStart (s : jsstring) : jsstring :=
  match s with
  | [] => []
  | c :: r => if isTrimmed c then trimStart r else s
  end.

Definition trimEnd (s : jsstring) : jsstring := rev (trimStart (rev s)).

(** [String.prototype.trim]. *)
Definition trim (s : jsstring) : jsstring := trimEnd (trimStart s).

(** [s.startsWith(p)]. *)
Fixpoint startsWith (s p : jsstring) {struct p} : bool :=
  match p, s with
  | [], _ => true
  | x :: p', y :: s' => (x =? y) && startsWith s' p'
  | _ :: _, [] => false
  end.

(** [lines.join(sep)]. *)
Fixpoint join (sep : jsstring) (lines : list jsstring) : jsstring :=
  match lines with
  | [] => []
  | [l] => l
  | l :: rest => l ++ sep ++ join sep rest
  end.

(* ================================================================== *)
(** ** The input of [generateVeoPrompt] *)

Module Action.
Record t : Type := mk
  { startTime : jsstring; endTime : jsstring; description : jsstring }.
End Action.

Module TimedDialogue.
Record t : Type := mk
  { startTime : jsstring; endTime : jsstring; dialogueText : jsstring }.
End TimedDialogue.

Module Image.
Record t : Type := mk { data : jsstring; mimeType : jsstring }.
End Image.

Record VeoPromptInput : Type := mkInput
  { actions : list Action.t;
    timedDialogues : list TimedDialogue.t;
    cameraMovement : jsstring;
    tone : jsstring;
    image : option Image.t }.

(** One element of the [parts] array. *)
Inductive Part : Type :=
| InlineData (mimeType data : jsstring)
| Text (text : jsstring).

(* ================================================================== *)
(** ** Assembling the parts (src/types.ts, lines 536-578) *)

Definition hasValidAction (acts : list Action.t) : bool :=
  existsb (fun a => truthy (trim (Action.description a))) acts.

Definition hasValidDialogue (ds : list TimedDialogue.t) : bool :=
  existsb (fun d => truthy (trim (TimedDialogue.dialogueText d))) ds.

(** The template literal of an action line. *)
Definition actionLine (a : Action.t) : jsstring :=
  lit "- " ++ or_else (Action.startTime a) (lit "0") ++ [EN_DASH]
  ++ or_else (Action.endTime a) (lit "?") ++ lit " sec: "
  ++ trim (Action.description a).

(** The template literal of a dialogue line. *)
Definition dialogueLine (d : TimedDialogue.t) : jsstring :=
  lit "- " ++ or_else (TimedDialogue.startTime d) (lit "0") ++ [EN_DASH]
  ++ or_else (TimedDialogue.endTime d) (lit "?") ++ lit " sec: "
  ++ [DQUOTE] ++ trim (TimedDialogue.dialogueText d) ++ [DQUOTE].

(** [actions.filter(...).map(...)]: the lines before they are joined. *)
Definition timelineLines (acts : list Action.t) : list jsstring :=
  map actionLine
    (filter (fun a => truthy (trim (Action.description a))) acts).

Definition timeline (acts : list Action.t) : jsstring :=
  join [LF] (timelineLines acts).

Definition dialogueTimelineLines (ds : list TimedDialogue.t) : list jsstring :=
  map dialogueLine
    (filter (fun d => truthy (trim (TimedDialogue.dialogueText d))) ds).

Definition dialogueTimeline (ds : list TimedDialogue.t) : jsstring :=
  join [LF] (dialogueTimelineLines ds).

Definition IMAGE_CAPTION : jsstring :=
  lit "The user has provided the above image as a visual reference.".

(** [parts.push(...)]. *)
Definition push (parts : list Part) (p : Part) : list Part := parts ++ [p].

(** The array [parts] as it stands at line 579. *)
Definition parts (i : VeoPromptInput) : list Part :=
  let parts := [] in
  let parts :=
    match image i with
    | Some img =>
        let parts :=
          push parts (InlineData (Image.mimeType img) (Image.data img)) in
        push parts (Text IMAGE_CAPTION)
    | None => parts
    end in
  let parts :=
    if hasValidAction (actions i)
    then push parts
           (Text (lit "ACTION TIMELINE:" ++ [LF] ++ timeline (actions i)))
    else parts in
  let parts :=
    if hasValidDialogue (timedDialogues i)
    then push parts
           (Text (lit "DIALOGUE TIMELINE (IN INDONESIAN):" ++ [LF]
                  ++ dialogueTimeline (timedDialogues i)))
    else parts in
  let parts :=
    if truthy (cameraMovement i)
       && negb (str_eqb (cameraMovement i) (lit "Automatic"))
    then push parts
           (Text (lit "CAMERA MOVEMENT PREFERENCE: " ++ cameraMovement i))
    else parts in
  let parts :=
    if truthy (tone i) && negb (str_eqb (tone i) (lit "Automatic"))
    then push parts (Text (lit "TONE PREFERENCE: " ++ tone i))
    else parts in
  parts.

(* ================================================================== *)
(** ** The fixed output schema and the request *)

Inductive SchemaType : Type :=
| STRING
| INTEGER
| ARRAY (items : SchemaType)
| OBJECT.

Record SchemaProperty : Type := mkProp
  { propName : jsstring; propType : SchemaType; propDescription : jsstring }.

Record Schema : Type := mkSchema
  { schemaType : SchemaType;
    properties : list SchemaProperty;
    required : list jsstring }.

Definition veoPromptSchema : Schema :=
  {| schemaType := OBJECT;
     properties :=
       [ mkProp (lit "prompt") STRING
           (lit "A concise, powerful, and highly descriptive main prompt for the video generation. Synthesize the most critical elements of the story into one compelling sentence.");
         mkProp (lit "keyword") (ARRAY STRING)
           (lit "An array of essential keywords from the story, including characters, objects, actions, and themes.");
         mkProp (lit "style") STRING
           (lit "The visual style. Examples: 'cinematic', 'anime', 'hyperrealistic', 'watercolor', '3D animation', 'vintage film'.");
         mkProp (lit "tone") STRING
           (lit "The emotional tone of the video. This should be based on the user's preference if provided, otherwise inferred from the context. Examples: 'dramatic', 'comedic', 'mysterious', 'epic', 'serene', 'suspenseful'.");
         mkProp (lit "camera") STRING
           (lit "The type of camera to simulate. Examples: 'DSLR', '8mm film', 'drone', 'security camera', 'handheld'.");
         mkProp (lit "motion") STRING
           (lit "The primary camera movement. This should be based on the user's preference if provided, otherwise inferred from the context. Examples: 'slow pan left', 'dolly zoom', 'fast tracking shot', 'static', 'whip pan'.");
         mkProp (lit "angle") STRING
           (lit "The camera angle. Examples: 'low angle', 'high angle', 'eye-level', 'dutch angle', 'bird's eye view'.");
         mkProp (lit "lens") STRING
           (lit "The type of lens to simulate. Examples: 'wide-angle', 'telephoto', 'macro', 'fisheye'.");
         mkProp (lit "lighting") STRING
           (lit "The lighting style. Examples: 'golden hour', 'neon noir', 'soft studio lighting', 'moonlight', 'dramatic shadows'.");
         mkProp (lit "audio") STRING
           (lit "Sound design, music, or dialogue. This should integrate the timed dialogue provided by the user. Examples: 'epic orchestral score and character speaks: "
            ++ [DQUOTE] ++ lit "Follow me!" ++ [DQUOTE]
            ++ lit "', 'ambient nature sounds'.");
         mkProp (lit "setting") STRING
           (lit "The general environment or setting. Examples: 'futuristic cityscape', 'enchanted forest', 'post-apocalyptic wasteland'.");
         mkProp (lit "place") STRING
           (lit "The specific location within the setting. Examples: 'a neon-lit noodle bar', 'a moss-covered ancient ruin', 'an abandoned subway station'.");
         mkProp (lit "time") STRING
           (lit "The time of day or era. Examples: 'dusk', 'midnight', '1980s', 'futuristic 2099'.");
         mkProp (lit "characters") (ARRAY STRING)
           (lit "An array of descriptions for the main characters involved.");
         mkProp (lit "plot_point") STRING
           (lit "A one-sentence summary of the core action or event, incorporating the action and dialogue timelines. Example: 'The knight walks while saying "
            ++ [DQUOTE] ++ lit "I will find it" ++ [DQUOTE]
            ++ lit ", then points at the audience.'");
         mkProp (lit "duration_second") INTEGER
           (lit "The estimated duration of the video in seconds. This should be automatically calculated from the latest end time found in either the action or dialogue timelines.");
         mkProp (lit "aspect_ratio") STRING
           (lit "The aspect ratio of the video. Examples: '16:9', '9:16', '1:1', '4:3'.");
         mkProp (lit "negative_prompt") STRING
           (lit "Elements to avoid in the generation. Examples: 'blurry, low quality, watermark, text, signature'.") ];
     required :=
       map lit
         [ "prompt"; "keyword"; "style"; "tone"; "camera"; "motion"; "angle";
           "lens"; "lighting"; "audio"; "setting"; "place"; "time";
           "characters"; "plot_point"; "duration_second"; "aspect_ratio";
           "negative_prompt" ]%string |}.

Definition systemInstruction : jsstring :=
  lit "You are an expert prompt engineer for the Gemini Veo video generation model. Your task is to analyze the provided timelines, image, and preferences, and break them down into a structured JSON format suitable for Veo. Adhere strictly to the provided JSON schema."
  ++ [LF] ++ lit "IMPORTANT LANGUAGE RULES:"
  ++ [LF] ++ lit "1. All text values in the generated JSON (such as 'prompt', 'style', 'tone', 'camera', 'keyword', etc.) MUST be in English."
  ++ [LF] ++ lit "2. HOWEVER, for the 'audio' and 'plot_point' fields, any dialogue text taken from the 'DIALOGUE TIMELINE' MUST be preserved and written in its original language, which is Indonesian. For example, if the dialogue is "
  ++ [DQUOTE] ++ lit "Mau pergi kemana?" ++ [DQUOTE]
  ++ lit ", the 'audio' field might be 'A character speaks: "
  ++ [DQUOTE] ++ lit "Mau pergi kemana?" ++ [DQUOTE] ++ lit "'."
  ++ [LF] ++ lit "OTHER RULES:"
  ++ [LF] ++ lit "- You MUST use the 'ACTION TIMELINE' and 'DIALOGUE TIMELINE' to structure the 'plot_point' and overall 'prompt'."
  ++ [LF] ++ lit "- The 'duration_second' field in the JSON MUST be set to the latest end time found across both timelines."
  ++ [LF] ++ lit "- If a 'CAMERA MOVEMENT PREFERENCE' is provided, you MUST use it as the primary source for the 'motion' field. Otherwise, infer the best camera motion from the context."
  ++ [LF] ++ lit "- If a 'TONE PREFERENCE' is provided, you MUST use it as the primary source for the 'tone' field in the JSON. Otherwise, infer the best tone from the context."
  ++ [LF] ++ lit "- The 'audio' field should accurately incorporate the Indonesian dialogue from the 'DIALOGUE TIMELINE' along with any other implied sounds.".

Record Config : Type := mkConfig
  { responseMimeType : jsstring;
    responseSchema : Schema;
    configSystemInstruction : jsstring }.

(** The argument of [ai.models.generateContent]. *)
Record Request : Type := mkRequest
  { model : jsstring; contents : list Part; config : Config }.

(* ================================================================== *)
(** ** Values, effects and the monad of an async function body *)

(** What a [throw] or a rejection carries, as far as [instanceof Error]
    and [.message] can tell. *)
Inductive Thrown : Type :=
| ErrorObject (message : jsstring)   (* an instance of Error *)
| StringValue (s : jsstring)         (* a plain string *)
| OtherValue.                        (* anything else *)

Definition instanceofError (v : Thrown) : bool :=
  match v with
  | ErrorObject _ => true
  | _ => false
  end.

(** The awaited call [ai.models.generateContent(...)] followed by
    [response.text]: the call rejects, or the response has a text. *)
Inductive ApiResult : Type :=
| ApiRejects (reason : Thrown)
| ApiResponds (text : jsstring).

(** What lies outside the function: the environment variable and the
    model endpoint. *)
Record World : Type := mkWorld
  { API_KEY : option jsstring;          (* process.env.API_KEY *)
    generateContent : Request -> ApiResult }.

Inductive Event : Type :=
| EvGenerateContent (req : Request)
| EvJSONparse (text : jsstring)
| EvConsoleError (label : jsstring) (v : Thrown).

(** How a computation ends: normally, or by throwing. At the top of an
    async function [Throw v] is the rejection of its promise with [v]
    (also for [return Promise.reject(v)]). *)
Inductive Completion (A : Type) : Type :=
| Normal (a : A)
| Throw (v : Thrown).
Arguments Normal {A} a.
Arguments Throw {A} v.

(** A computation: the events it performed, in order, and how it ended. *)
Definition Js (A : Type) : Type := (list Event * Completion A)%type.

Definition ret {A} (a : A) : Js A := ([], Normal a).

Definition throw {A} (v : Thrown) : Js A := ([], Throw v).

Definition emit (e : Event) : Js unit := ([e], Normal tt).

Definition bind {A B} (m : Js A) (k : A -> Js B) : Js B :=
  match m with
  | (t, Normal a) => let (t', r) := k a in (t ++ t', r)
  | (t, Throw v) => (t, Throw v)
  end.

(** [try { m } catch (e) { h e }]. *)
Definition try_catch {A} (m : Js A) (h : Thrown -> Js A) : Js A :=
  match m with
  | (t, Throw v) => let (t', r) := h v in (t ++ t', r)
  | (t, Normal a) => (t, Normal a)
  end.

Declare Scope js_scope.
Delimit Scope js_scope with js.
Notation "x <- m ;; k" := (bind m (fun x => k))
  (at level 61, m at next level, right associativity) : js_scope.
Notation "m ;;; k" := (bind m (fun _ => k))
  (at level 61, right associativity) : js_scope.

Definition trace {A} (m : Js A) : list Event := fst m.
Definition outcome {A} (m : Js A) : Completion A := snd m.

(** The requests of a trace, in order. *)
Fixpoint requests (t : list Event) : list Request :=
  match t with
  | [] => []
  | EvGenerateContent r :: t' => r :: requests t'
  | _ :: t' => requests t'
  end.

(** The texts handed to [JSON.parse], in order. *)
Fixpoint parsed_texts (t : list Event) : list jsstring :=
  match t with
  | [] => []
  | EvJSONparse s :: t' => s :: parsed_texts t'
  | _ :: t' => parsed_texts t'
  end.

(* ================================================================== *)
(** ** JSON values, [JSON.parse] and [JSON.stringify] (ECMA-262, 25.5) *)

(** The code unit of an ASCII character. *)
Definition chr (a : ascii) : N := N_of_ascii a.

(** A value [JSON.parse] can return. A number is kept as the literal it
    was read from; an object keeps its properties in the order its own
    keys are enumerated. *)
Inductive JSValue : Type :=
| JNull
| JBool (b : bool)
| JNumber (literal : jsstring)
| JString (s : jsstring)
| JArray (elements : list JSValue)
| JObject (props : list (jsstring * JSValue)).

Definition isJSONWhiteSpace (c : N) : bool :=
  (c =? 9) || (c =? 10) || (c =? 13) || (c =? 32).

Fixpoint skip_ws (s : jsstring) : jsstring :=
  match s with
  | [] => []
  | c :: r => if isJSONWhiteSpace c then skip_ws r else s
  end.

Definition isDigit (c : N) : bool := (chr "0" <=? c) && (c <=? chr "9").

Definition hexValue (c : N) : option N :=
  if isDigit c then Some (c - chr "0")
  else if (chr "a" <=? c) && (c <=? chr "f") then Some (c - chr "a" + 10)
  else if (chr "A" <=? c) && (c <=? chr "F") then Some (c - chr "A" + 10)
  else None.

(** The character a single-character escape stands for. *)
Definition unescape (e : N) : option N :=
  if e =? DQUOTE then Some (DQUOTE)
  else if e =? chr "\" then Some (chr "\")
  else if e =? chr "/" then Some (chr "/")
  else if e =? chr "b" then Some 8
  else if e =? chr "f" then Some 12
  else if e =? chr "n" then Some 10
  else if e =? chr "r" then Some 13
  else if e =? chr "t" then Some 9
  else None.

(** The characters of a string literal after its opening quote: the
    decoded string and what follows the closing quote. *)
Fixpoint parse_chars (s : jsstring) : option (jsstring * jsstring) :=
  match s with
  | [] => None
  | c :: r =>
      if c =? DQUOTE then Some ([], r)
      else if c =? chr "\" then
        match r with
        | [] => None
        | e :: r1 =>
            if e =? chr "u" then
              match r1 with
              | h1 :: h2 :: h3 :: h4 :: r2 =>
                  match hexValue h1, hexValue h2, hexValue h3, hexValue h4 with
                  | Some a, Some b, Some c', Some d =>
                      match parse_chars r2 with
                      | Some (str, rest) =>
                          Some (4096 * a + 256 * b + 16 * c' + d :: str, rest)
                      | None => None
                      end
                  | _, _, _, _ => None
                  end
              | _ => None
              end
            else
              match unescape e with
              | Some x =>
                  match parse_chars r1 with
                  | Some (str, rest) => Some (x :: str, rest)
                  | None => None
                  end
              | None => None
              end
        end
      else if c <? 32 then None
      else
        match parse_chars r with
        | Some (str, rest) => Some (c :: str, rest)
        | None => None
        end
  end.

(** The longest run of digits at the head of a string, and the rest. *)
Fixpoint span_digits (s : jsstring) : jsstring * jsstring :=
  match s with
  | [] => ([], [])
  | c :: r =>
      if isDigit c then let (d, r') := span_digits r in (c :: d, r')
      else ([], s)
  end.

(** The optional minus sign of a number. *)
Definition parse_sign (s : jsstring) : jsstring * jsstring :=
  match s with
  | c :: r => if c =? chr "-" then ([c], r) else ([], s)
  | [] => ([], s)
  end.

(** The integer part: a lone zero, or a non-zero digit and more digits. *)
Definition parse_int (s : jsstring) : option (jsstring * jsstring) :=
  match s with
  | [] => None
  | c :: r =>
      if isDigit c then
        if c =? chr "0" then Some ([c], r)
        else let (d, r') := span_digits r in Some (c :: d, r')
      else None
  end.

(** The optional fraction: a point and at least one digit. *)
Definition parse_frac (s : jsstring) : option (jsstring * jsstring) :=
  match s with
  | p :: r =>
      if p =? chr "." then
        match span_digits r with
        | ([], _) => None
        | (d, r') => Some (p :: d, r')
        end
      else Some ([], s)
  | [] => Some ([], s)
  end.

(** The optional exponent: e or E, an optional sign, at least one digit. *)
Definition parse_exp (s : jsstring) : option (jsstring * jsstring) :=
  match s with
  | e :: r =>
      if (e =? chr "e") || (e =? chr "E") then
        let (sg, r1) :=
          match r with
          | g :: r1 =>
              if (g =? chr "+") || (g =? chr "-") then ([g], r1) else ([], r)
          | [] => ([], r)
          end in
        match span_digits r1 with
        | ([], _) => None
        | (d, r2) => Some (e :: sg ++ d, r2)
        end
      else Some ([], s)
  | [] => Some ([], s)
  end.

(** A number literal at the head of a string: the literal and the rest. *)
Definition parse_number (s : jsstring) : option (jsstring * jsstring) :=
  let (sign, s1) := parse_sign s in
  match parse_int s1 with
  | None => None
  | Some (int, s2) =>
      match parse_frac s2 with
      | None => None
      | Some (fr, s3) =>
          match parse_exp s3 with
          | None => None
          | Some (ex, s4) => Some (sign ++ int ++ fr ++ ex, s4)
          end
      end
  end.

(** An array index: the canonical decimal string of an integer below
    2^32 - 1. Such keys are enumerated first, in ascending order. *)
Definition digits_value (ds : jsstring) : N :=
  fold_left (fun acc d => 10 * acc + (d - chr "0")) ds 0.

Definition array_index (k : jsstring) : option N :=
  match k with
  | [] => None
  | c :: r =>
      if forallb isDigit k
         && ((negb (c =? chr "0")) || (match r with [] => true | _ => false end))
         && (length k <=? 10)%nat
         && (digits_value k <? 4294967295)
      then Some (digits_value k)
      else None
  end.

Fixpoint has_prop (k : jsstring) (props : list (jsstring * JSValue)) : bool :=
  match props with
  | [] => false
  | (k', _) :: rest => str_eqb k k' || has_prop k rest
  end.

Fixpoint replace_prop (k : jsstring) (v : JSValue)
    (props : list (jsstring * JSValue)) : list (jsstring * JSValue) :=
  match props with
  | [] => []
  | (k', v') :: rest =>
      if str_eqb k k' then (k', v) :: rest
      else (k', v') :: replace_prop k v rest
  end.

Fixpoint insert_prop (k : jsstring) (idx : option N) (v : JSValue)
    (props : list (jsstring * JSValue)) : list (jsstring * JSValue) :=
  match props with
  | [] => [(k, v)]
  | (k', v') :: rest =>
      match idx with
      | Some n =>
          match array_index k' with
          | Some n' =>
              if n <? n' then (k, v) :: props
              else (k', v') :: insert_prop k idx v rest
          | None => (k, v) :: props
          end
      | None => (k', v') :: insert_prop k idx v rest
      end
  end.

(** CreateDataProperty on the object under construction: a repeated key
    keeps its place and takes the new value. *)
Definition define_prop (props : list (jsstring * JSValue))
    (k : jsstring) (v : JSValue) : list (jsstring * JSValue) :=
  if has_prop k props then replace_prop k v props
  else insert_prop k (array_index k) v props.

(** The result of parsing a prefix of a text. *)
Inductive Parse (A : Type) : Type :=
| Parsed (a : A) (rest : jsstring)
| Unexpected
| OutOfFuel.
Arguments Parsed {A} a rest.
Arguments Unexpected {A}.
Arguments OutOfFuel {A}.

(** Recursive descent over the JSON grammar. [parse_elements] reads the
    elements of an array after its bracket, [parse_members] the members of
    an object after its brace. *)
Fixpoint parse_value (fuel : nat) (s : jsstring) : Parse JSValue :=
  match fuel with
  | O => OutOfFuel
  | S fuel' =>
      match s with
      | [] => Unexpected
      | c :: r =>
          if c =? chr "{" then
            match skip_ws r with
            | [] => Unexpected
            | c' :: r' =>
                if c' =? chr "}" then Parsed (JObject []) r'
                else parse_members fuel' [] (c' :: r')
            end
          else if c =? chr "[" then
            match skip_ws r with
            | [] => Unexpected
            | c' :: r' =>
                if c' =? chr "]" then Parsed (JArray []) r'
                else parse_elements fuel' [] (c' :: r')
            end
          else if c =? DQUOTE then
            match parse_chars r with
            | Some (str, rest) => Parsed (JString str) rest
            | None => Unexpected
            end
          else if startsWith s (lit "true") then
            Parsed (JBool true) (skipn 4 s)
          else if startsWith s (lit "false") then
            Parsed (JBool false) (skipn 5 s)
          else if startsWith s (lit "null") then
            Parsed JNull (skipn 4 s)
          else
            match parse_number s with
            | Some (l, rest) => Parsed (JNumber l) rest
            | None => Unexpected
            end
      end
  end
with parse_elements (fuel : nat) (acc : list JSValue) (s : jsstring)
    : Parse JSValue :=
  match fuel with
  | O => OutOfFuel
  | S fuel' =>
      match parse_value fuel' (skip_ws s) with
      | Parsed v r =>
          match skip_ws r with
          | [] => Unexpected
          | c :: r' =>
              if c =? chr "," then parse_elements fuel' (acc ++ [v]) r'
              else if c =? chr "]" then Parsed (JArray (acc ++ [v])) r'
              else Unexpected
          end
      | Unexpected => Unexpected
      | OutOfFuel => OutOfFuel
      end
  end
with parse_members (fuel : nat) (acc : list (jsstring * JSValue))
    (s : jsstring) : Parse JSValue :=
  match fuel with
  | O => OutOfFuel
  | S fuel' =>
      match skip_ws s with
      | [] => Unexpected
      | q :: r0 =>
          if q =? DQUOTE then
            match parse_chars r0 with
            | None => Unexpected
            | Some (k, r1) =>
                match skip_ws r1 with
                | [] => Unexpected
                | c :: r2 =>
                    if c =? chr ":" then
                      match parse_value fuel' (skip_ws r2) with
                      | Parsed v r3 =>
                          match skip_ws r3 with
                          | [] => Unexpected
                          | c' :: r4 =>
                              if c' =? chr "," then
                                parse_members fuel' (define_prop acc k v) r4
                              else if c' =? chr "}" then
                                Parsed (JObject (define_prop acc k v)) r4
                              else Unexpected
                          end
                      | Unexpected => Unexpected
                      | OutOfFuel => OutOfFuel
                      end
                    else Unexpected
                end
            end
          else Unexpected
      end
  end.

(** A parse that did not stop for lack of fuel. *)
Definition finished {A} (p : Parse A) : bool :=
  match p with
  | OutOfFuel => false
  | _ => true
  end.

(** Fuel that always suffices (see [parse_value_fuel_enough]). *)
Definition parse_fuel (s : jsstring) : nat := 2 * length s + 2.

(** [JSON.parse(text)] without a reviver: [None] is the SyntaxError. *)
Definition JSON_parse (text : jsstring) : option JSValue :=
  match parse_value (parse_fuel text) (skip_ws text) with
  | Parsed v rest =>
      match skip_ws rest with
      | [] => Some v
      | _ :: _ => None
      end
  | Unexpected => None
  | OutOfFuel => None
  end.

Definition hexDigit (n : N) : N :=
  if n <? 10 then chr "0" + n else chr "a" + (n - 10).

(** UnicodeEscape: backslash, u and four lowercase hexadecimal digits. *)
Definition unicodeEscape (c : N) : jsstring :=
  [ chr "\"; chr "u"; hexDigit ((c / 4096) mod 16);
    hexDigit ((c / 256) mod 16); hexDigit ((c / 16) mod 16);
    hexDigit (c mod 16) ].

Definition isLeadingSurrogate (c : N) : bool := (55296 <=? c) && (c <=? 56319).
Definition isTrailingSurrogate (c : N) : bool := (56320 <=? c) && (c <=? 57343).

(** A code unit that is no surrogate, as QuoteJSONString writes it. *)
Definition quote_unit (c : N) : jsstring :=
  if c =? 8 then [chr "\"; chr "b"]
  else if c =? 9 then [chr "\"; chr "t"]
  else if c =? 10 then [chr "\"; chr "n"]
  else if c =? 12 then [chr "\"; chr "f"]
  else if c =? 13 then [chr "\"; chr "r"]
  else if c =? DQUOTE then [chr "\"; DQUOTE]
  else if c =? chr "\" then [chr "\"; chr "\"]
  else if c <? 32 then unicodeEscape c
  else [c].

(** A surrogate pair is copied; a lone surrogate is escaped. *)
Fixpoint quote_units (s : jsstring) : jsstring :=
  match s with
  | [] => []
  | c :: r =>
      if isLeadingSurrogate c then
        match r with
        | d :: r' =>
            if isTrailingSurrogate d then c :: d :: quote_units r'
            else unicodeEscape c ++ quote_units r
        | [] => unicodeEscape c
        end
      else if isTrailingSurrogate c then unicodeEscape c ++ quote_units r
      else quote_unit c ++ quote_units r
  end.

Definition QuoteJSONString (s : jsstring) : jsstring :=
  [DQUOTE] ++ quote_units s ++ [DQUOTE].

(** A literal that denotes an integer of magnitude at most 2^53: the
    double is that integer, and it prints as its decimal digits. *)
Definition isSafeIntegerLiteral (l : jsstring) : bool :=
  let body :=
    match l with
    | c :: r => if c =? chr "-" then r else l
    | [] => l
    end in
  truthy body && forallb isDigit body
  && (digits_value body <=? 9007199254740992).

(* ================================================================== *)
(** ** The requester *)

Section Engine.

(** Two things the engine decides and the repository does not: how the
    double denoted by a number literal prints when it is no safe
    integer, and the message of the SyntaxError [JSON.parse] throws on
    a text. *)
Variable numberToString : jsstring -> jsstring.
Variable syntaxErrorMessage : jsstring -> jsstring.

Definition SerializeJSONNumber (l : jsstring) : jsstring :=
  if isSafeIntegerLiteral l then
    (if str_eqb l (lit "-0") then lit "0" else l)
  else numberToString l.

(** SerializeJSONProperty with its SerializeJSONObject and
    SerializeJSONArray, for a value that came out of [JSON.parse]. *)
Fixpoint SerializeJSONProperty (gap indent : jsstring) (v : JSValue)
    : jsstring :=
  match v with
  | JNull => lit "null"
  | JBool true => lit "true"
  | JBool false => lit "false"
  | JNumber l => SerializeJSONNumber l
  | JString str => QuoteJSONString str
  | JArray elements =>
      let stepback := indent in
      let indent := indent ++ gap in
      let partial := map (SerializeJSONProperty gap indent) elements in
      match partial with
      | [] => lit "[]"
      | _ :: _ =>
          if truthy gap then
            lit "[" ++ [LF] ++ indent
            ++ join (lit "," ++ [LF] ++ indent) partial
            ++ [LF] ++ stepback ++ lit "]"
          else lit "[" ++ join (lit ",") partial ++ lit "]"
      end
  | JObject props =>
      let stepback := indent in
      let indent := indent ++ gap in
      let partial :=
        map (fun kv =>
               match kv with
               | (k, v') =>
                   QuoteJSONString k ++ lit ":"
                   ++ (if truthy gap then lit " " else [])
                   ++ SerializeJSONProperty gap indent v'
               end) props in
      match partial with
      | [] => lit "{}"
      | _ :: _ =>
          if truthy gap then
            lit "{" ++ [LF] ++ indent
            ++ join (lit "," ++ [LF] ++ indent) partial
            ++ [LF] ++ stepback ++ lit "}"
          else lit "{" ++ join (lit ",") partial ++ lit "}"
      end
  end.

(** [JSON.stringify(value, null, space)] for a numeric [space]. *)
Definition JSON_stringify (value : JSValue) (space : nat) : jsstring :=
  SerializeJSONProperty (repeat (chr " ") (Nat.min space 10)) [] value.

(** The call [JSON.parse(text)] as an effect. *)
Definition call_JSON_parse (text : jsstring) : Js JSValue :=
  (emit (EvJSONparse text) ;;;
   match JSON_parse text with
   | Some v => ret v
   | None => throw (ErrorObject (syntaxErrorMessage text))
   end)%js.

(** [await ai.models.generateContent(req)] and the read of [.text]. *)
Definition call_generateContent (w : World) (req : Request) : Js jsstring :=
  (emit (EvGenerateContent req) ;;;
   match generateContent w req with
   | ApiResponds text => ret text
   | ApiRejects reason => throw reason
   end)%js.

Definition console_error (label : jsstring) (v : Thrown) : Js unit :=
  emit (EvConsoleError label v).

(** [!process.env.API_KEY]. *)
Definition key_missing (w : World) : bool :=
  match API_KEY w with
  | Some k => negb (truthy k)
  | None => true
  end.

Definition MSG_API_KEY : jsstring :=
  lit "API key is missing. Please set the API_KEY environment variable.".
Definition MSG_INPUT : jsstring :=
  lit "Action timeline, dialogue timeline, or an image is required.".
Definition MSG_NOT_JSON : jsstring :=
  lit "The API did not return a valid JSON format.".
Definition PREFIX : jsstring := lit "Failed to generate prompt: ".
Definition MSG_UNKNOWN : jsstring :=
  lit "An unknown error occurred while generating the prompt.".

Definition isSome {A} (o : option A) : bool :=
  match o with
  | Some _ => true
  | None => false
  end.

Definition theRequest (i : VeoPromptInput) : Request :=
  {| model := lit "gemini-2.5-flash";
     contents := parts i;
     config :=
       {| responseMimeType := lit "application/json";
          responseSchema := veoPromptSchema;
          configSystemInstruction := systemInstruction |} |}.

(** src/types.ts, lines 531-619. *)
Definition generateVeoPrompt (w : World) (i : VeoPromptInput) : Js jsstring :=
  if key_missing w then throw (ErrorObject MSG_API_KEY)
  else if negb (hasValidAction (actions i))
          && negb (hasValidDialogue (timedDialogues i))
          && negb (isSome (image i))
  then throw (ErrorObject MSG_INPUT)
  else
    try_catch
      (jsonString <- call_generateContent w (theRequest i) ;;
       if negb (startsWith jsonString (lit "{"))
          && negb (startsWith jsonString (lit "["))
       then throw (ErrorObject MSG_NOT_JSON)
       else
         parsedJson <- call_JSON_parse jsonString ;;
         ret (JSON_stringify parsedJson 2))%js
      (fun error =>
         (console_error (lit "Error calling Gemini API:") error ;;;
          match error with
          | ErrorObject message => throw (StringValue (PREFIX ++ message))
          | _ => throw (StringValue MSG_UNKNOWN)
          end)%js).

(* ---------------------------------------------------------------- *)
(** *** The caller: [handleGenerate] (src/types.ts, lines 180-206) *)

Record FormState : Type := mkForm
  { formActions : list Action.t;
    formTimedDialogues : list TimedDialogue.t;
    imageBase64 : option jsstring;
    imageMimeType : option jsstring;
    selectedCameraSpotlight : jsstring;
    customCameraMovement : jsstring;
    selectedTone : jsstring;
    customTone : jsstring }.

Record AppState : Type := mkApp
  { generatedJson : jsstring; error : jsstring; isLoading : bool }.

Definition MSG_UNEXPECTED : jsstring := lit "An unexpected error occurred.".

(** [imageBase64 && imageMimeType ? {...} : undefined]. *)
Definition formImage (f : FormState) : option Image.t :=
  match imageBase64 f, imageMimeType f with
  | Some d, Some m =>
      if truthy d && truthy m then Some (Image.mk d m) else None
  | _, _ => None
  end.

Definition formInput (f : FormState) : VeoPromptInput :=
  let finalTone :=
    if str_eqb (selectedTone f) (lit "custom") then customTone f
    else selectedTone f in
  let finalCameraMovement :=
    if str_eqb (selectedCameraSpotlight f) (lit "custom")
    then customCameraMovement f
    else selectedCameraSpotlight f in
  {| actions := formActions f;
     timedDialogues := formTimedDialogues f;
     image := formImage f;
     cameraMovement := finalCameraMovement;
     tone := finalTone |}.

(** The catch clause of [handleGenerate]: what [setError] receives. *)
Definition displayedError (err : Thrown) : jsstring :=
  match err with
  | ErrorObject message => message
  | _ => MSG_UNEXPECTED
  end.

(** [handleGenerate] run in one go: the state it leaves when no other
    handler sets state between its start (which clears the result and the
    error, line 182) and the settling of the call. The handler in two
    steps, with anything allowed in between, is [handleGenerateStart] and
    [handleGenerateSettle] below. *)
Definition handleGenerate (w : World) (f : FormState)
    : list Event * AppState :=
  match generateVeoPrompt w (formInput f) with
  | (t, Normal result) =>
      (t, {| generatedJson := result; error := []; isLoading := false |})
  | (t, Throw err) =>
      (t, {| generatedJson := [];
             error := displayedError err;
             isLoading := false |})
  end.

End Engine.

(* ================================================================== *)
(** ** The specification's reading of the normalizer (spec, 3 and 4.1) *)

Module Spec.

(** TimedEntry: one record for action beats and dialogue lines. *)
Record TimedEntry : Type := mkEntry
  { startTime : jsstring; endTime : jsstring; text : jsstring }.

(** An entry is valid iff its text, trimmed, is non-empty. *)
Definition valid (e : TimedEntry) : Prop := trim (text e) <> [].

Definition is_valid (e : TimedEntry) : bool :=
  match trim (text e) with
  | [] => false
  | _ :: _ => true
  end.

(** "- {startTime or default}-{endTime or default} sec: {trimmedText}",
    the text in quotation marks for a dialogue line. *)
Definition line (quoted : bool) (e : TimedEntry) : jsstring :=
  let start :=
    match startTime e with
    | [] => lit "0"
    | _ :: _ => startTime e
    end in
  let stop :=
    match endTime e with
    | [] => lit "?"
    | _ :: _ => endTime e
    end in
  let shown :=
    if quoted then [DQUOTE] ++ trim (text e) ++ [DQUOTE]
    else trim (text e) in
  lit "- " ++ start ++ [EN_DASH] ++ stop ++ lit " sec: " ++ shown.

(** One line per valid entry and none for the others, in input order. *)
Inductive Rendered (quoted : bool)
    : list TimedEntry -> list jsstring -> Prop :=
| Rendered_nil : Rendered quoted [] []
| Rendered_valid e es ls :
    valid e -> Rendered quoted es ls ->
    Rendered quoted (e :: es) (line quoted e :: ls)
| Rendered_skip e es ls :
    ~ valid e -> Rendered quoted es ls -> Rendered quoted (e :: es) ls.

(** The number of valid entries. *)
Fixpoint count_valid (es : list TimedEntry) : nat :=
  match es with
  | [] => O
  | e :: r => if is_valid e then S (count_valid r) else count_valid r
  end.

(** A preference value that means "infer": "Automatic" or empty. *)
Definition automatic (value : jsstring) : Prop :=
  value = [] \/ value = lit "Automatic".

(** The image part and its caption, only if an image is present. *)
Definition image_block (img : option Image.t) (blk : list Part) : Prop :=
  match img with
  | Some im =>
      blk = [ InlineData (Image.mimeType im) (Image.data im);
              Text (lit "The user has provided the above image as a visual reference.") ]
  | None => blk = []
  end.

(** A labelled timeline block, only if some entry is valid. *)
Definition timeline_block (label : jsstring) (es : list TimedEntry)
    (rendered : jsstring) (blk : list Part) : Prop :=
  ((exists e, In e es /\ valid e)
   /\ blk = [Text (label ++ [LF] ++ rendered)])
  \/ ((forall e, In e es -> ~ valid e) /\ blk = []).

(** A labelled preference block, only if the value is not automatic. *)
Definition preference_block (label value : jsstring) (blk : list Part)
    : Prop :=
  (automatic value /\ blk = [])
  \/ (~ automatic value /\ blk = [Text (label ++ value)]).

End Spec.

Definition entryOfAction (a : Action.t) : Spec.TimedEntry :=
  Spec.mkEntry (Action.startTime a) (Action.endTime a) (Action.description a).

Definition entryOfDialogue (d : TimedDialogue.t) : Spec.TimedEntry :=
  Spec.mkEntry (TimedDialogue.startTime d) (TimedDialogue.endTime d)
    (TimedDialogue.dialogueText d).

(** The five blocks [parts] is built from, each as the code guards it. *)
Definition imageParts (img : option Image.t) : list Part :=
  match img with
  | Some im =>
      [InlineData (Image.mimeType im) (Image.data im); Text IMAGE_CAPTION]
  | None => []
  end.

Definition actionParts (acts : list Action.t) : list Part :=
  if hasValidAction acts
  then [Text (lit "ACTION TIMELINE:" ++ [LF] ++ timeline acts)]
  else [].

Definition dialogueParts (ds : list TimedDialogue.t) : list Part :=
  if hasValidDialogue ds
  then [Text (lit "DIALOGUE TIMELINE (IN INDONESIAN):" ++ [LF]
              ++ dialogueTimeline ds)]
  else [].

Definition preferenceParts (label value : jsstring) : list Part :=
  if truthy value && negb (str_eqb value (lit "Automatic"))
  then [Text (label ++ value)]
  else [].

(** The second guard of [generateVeoPrompt] lets the input through. *)
Definition inputAccepted (i : VeoPromptInput) : bool :=
  hasValidAction (actions i) || hasValidDialogue (timedDialogues i)
  || isSome (image i).

Definition LABEL_CONSOLE : jsstring := lit "Error calling Gemini API:".

(** The delimiter check of line 605 lets the text through. *)
Definition looksLikeJSON (text : jsstring) : bool :=
  startsWith text (lit "{") || startsWith text (lit "[").

(** The string the catch clause of [generateVeoPrompt] rejects with. *)
Definition rejectionOf (error : Thrown) : jsstring :=
  match error with
  | ErrorObject message => PREFIX ++ message
  | _ => MSG_UNKNOWN
  end.

(** A preference part, recognised by its label. *)
Definition isCameraPart (p : Part) : bool :=
  match p with
  | Text t => startsWith t (lit "CAMERA MOVEMENT PREFERENCE: ")
  | InlineData _ _ => false
  end.

Definition isTonePart (p : Part) : bool :=
  match p with
  | Text t => startsWith t (lit "TONE PREFERENCE: ")
  | InlineData _ _ => false
  end.

(** An object that owns a property of each name required by a schema. *)
Definition hasRequiredFields (sch : Schema) (v : JSValue) : bool :=
  match v with
  | JObject props => forallb (fun k => has_prop k props) (required sch)
  | _ => false
  end.

(* ================================================================== *)
(** ** What the requester is insensitive to *)

(** An action as the request shows it: the defaults filled in, the
    description trimmed. *)
Definition normalAction (a : Action.t) : Action.t :=
  Action.mk (or_else (Action.startTime a) (lit "0"))
    (or_else (Action.endTime a) (lit "?")) (trim (Action.description a)).

Definition normalDialogue (d : TimedDialogue.t) : TimedDialogue.t :=
  TimedDialogue.mk (or_else (TimedDialogue.startTime d) (lit "0"))
    (or_else (TimedDialogue.endTime d) (lit "?"))
    (trim (TimedDialogue.dialogueText d)).

(** An input without its blank rows, the remaining rows as shown. *)
Definition normalInput (i : VeoPromptInput) : VeoPromptInput :=
  {| actions :=
       map normalAction
         (filter (fun a => truthy (trim (Action.description a))) (actions i));
     timedDialogues :=
       map normalDialogue
         (filter (fun d => truthy (trim (TimedDialogue.dialogueText d)))
            (timedDialogues i));
     cameraMovement := cameraMovement i;
     tone := tone i;
     image := image i |}.

Definition isObjectOrArray (v : JSValue) : bool :=
  match v with
  | JObject _ => true
  | JArray _ => true
  | _ => false
  end.

(** The values [console.error] was called with, in order. *)
Fixpoint logged (t : list Event) : list Thrown :=
  match t with
  | [] => []
  | EvConsoleError _ v :: t' => v :: logged t'
  | _ :: t' => logged t'
  end.

(** A part that opens the context: the image or a timeline. *)
Definition isContentPart (p : Part) : bool :=
  match p with
  | InlineData _ _ => true
  | Text t =>
      startsWith t (lit "ACTION TIMELINE:")
      || startsWith t (lit "DIALOGUE TIMELINE (IN INDONESIAN):")
  end.

(* ================================================================== *)
(** ** The handlers of the [App] component (src/types.ts, lines 81-216)

    Each handler runs against the state of the latest render. The state
    holds immutable values: the handlers that write into an entry object
    do so on an object that no other entry shares, since every entry is
    created by its own object literal. *)

(** [keyof Action] and [keyof TimedDialogue]. *)
Inductive ActionField : Type := AStartTime | AEndTime | ADescription.
Inductive DialogueField : Type := DStartTime | DEndTime | DDialogueText.

(** [action[field] = value]. *)
Definition setActionField (a : Action.t) (field : ActionField)
    (value : jsstring) : Action.t :=
  match field with
  | AStartTime => Action.mk value (Action.endTime a) (Action.description a)
  | AEndTime => Action.mk (Action.startTime a) value (Action.description a)
  | ADescription => Action.mk (Action.startTime a) (Action.endTime a) value
  end.

Definition setDialogueField (d : TimedDialogue.t) (field : DialogueField)
    (value : jsstring) : TimedDialogue.t :=
  match field with
  | DStartTime =>
      TimedDialogue.mk value (TimedDialogue.endTime d)
        (TimedDialogue.dialogueText d)
  | DEndTime =>
      TimedDialogue.mk (TimedDialogue.startTime d) value
        (TimedDialogue.dialogueText d)
  | DDialogueText =>
      TimedDialogue.mk (TimedDialogue.startTime d)
        (TimedDialogue.endTime d) value
  end.

(** A copy of [l] with [f] applied to [l[index]]; [None] when [l[index]]
    is undefined, where the write into its field throws a TypeError. *)
Fixpoint updateAt {A} (index : nat) (f : A -> A) (l : list A)
    : option (list A) :=
  match l, index with
  | [], _ => None
  | x :: r, O => Some (f x :: r)
  | x :: r, S n =>
      match updateAt n f r with
      | Some r' => Some (x :: r')
      | None => None
      end
  end.

(** [l.filter((_, i) => keep(i))], the indices counted from [i]. *)
Fixpoint filterIndex {A} (keep : nat -> bool) (i : nat) (l : list A)
    : list A :=
  match l with
  | [] => []
  | x :: r =>
      if keep i then x :: filterIndex keep (S i) r
      else filterIndex keep (S i) r
  end.

(** Lines 109-113: the new value of [actions], if the handler returns. *)
Definition handleActionChange (actions : list Action.t) (index : nat)
    (field : ActionField) (value : jsstring) : option (list Action.t) :=
  updateAt index (fun a => setActionField a field value) actions.

Definition blankAction : Action.t := Action.mk [] [] [].

(** Lines 115-117. *)
Definition addAction (actions : list Action.t) : list Action.t :=
  actions ++ [blankAction].

(** Lines 119-124. *)
Definition removeAction (actions : list Action.t) (index : nat)
    : list Action.t :=
  if (1 <? length actions)%nat
  then filterIndex (fun i => negb (i =? index)%nat) 0 actions
  else actions.

(** Lines 126-130. *)
Definition handleDialogueChange (timedDialogues : list TimedDialogue.t)
    (index : nat) (field : DialogueField) (value : jsstring)
    : option (list TimedDialogue.t) :=
  updateAt index (fun d => setDialogueField d field value) timedDialogues.

Definition blankDialogue : TimedDialogue.t := TimedDialogue.mk [] [] [].

(** Lines 132-134. *)
Definition addDialogue (timedDialogues : list TimedDialogue.t)
    : list TimedDialogue.t :=
  timedDialogues ++ [blankDialogue].

(** Lines 136-141. *)
Definition removeDialogue (timedDialogues : list TimedDialogue.t)
    (index : nat) : list TimedDialogue.t :=
  if (1 <? length timedDialogues)%nat
  then filterIndex (fun i => negb (i =? index)%nat) 0 timedDialogues
  else timedDialogues.

(** [s.split(sep)] for a separator of one code unit. *)
Fixpoint split_on (sep : N) (s : jsstring) : list jsstring :=
  match s with
  | [] => [[]]
  | c :: r =>
      if c =? sep then [] :: split_on sep r
      else
        match split_on sep r with
        | piece :: pieces => (c :: piece) :: pieces
        | [] => [[c]]
        end
  end.

Definition validTypes : list jsstring :=
  [lit "image/jpeg"; lit "image/png"; lit "image/webp"].

(** [validTypes.includes(type)]. *)
Definition includes (types : list jsstring) (type : jsstring) : bool :=
  existsb (str_eqb type) types.

Definition MSG_FILE_TYPE : jsstring :=
  lit "Invalid file type. Please select a PNG, JPG, or WEBP image.".
Definition MSG_READ : jsstring := lit "Failed to read image file.".

(** ToBoolean on a string that may be null or undefined. *)
Definition truthyOpt (o : option jsstring) : bool :=
  match o with
  | Some s => truthy s
  | None => false
  end.

(** The [src] of the preview, when the preview is rendered (lines
    235-238). *)
Definition previewSrc (f : FormState) : option jsstring :=
  if truthyOpt (imageBase64 f) && truthyOpt (imageMimeType f) then
    match imageBase64 f, imageMimeType f with
    | Some d, Some m => Some (lit "data:" ++ m ++ lit ";base64," ++ d)
    | _, _ => None
    end
  else None.

(** The page: the state of the component, the types of the files a
    FileReader is still reading, and the outcomes of the calls of
    [generateVeoPrompt] that have not settled yet. [isEditing] and
    [copySuccess] only gate the result box and are left out. *)
Record Page : Type := mkPage
  { form : FormState;
    app : AppState;
    reading : list jsstring;
    pending : list (Completion jsstring) }.

Definition withActions (p : Page) (l : list Action.t) : Page :=
  let f := form p in
  mkPage
    (mkForm l (formTimedDialogues f) (imageBase64 f) (imageMimeType f)
       (selectedCameraSpotlight f) (customCameraMovement f)
       (selectedTone f) (customTone f))
    (app p) (reading p) (pending p).

Definition withDialogues (p : Page) (l : list TimedDialogue.t) : Page :=
  let f := form p in
  mkPage
    (mkForm (formActions f) l (imageBase64 f) (imageMimeType f)
       (selectedCameraSpotlight f) (customCameraMovement f)
       (selectedTone f) (customTone f))
    (app p) (reading p) (pending p).

Definition withImage (p : Page) (base64 mime : option jsstring) : Page :=
  let f := form p in
  mkPage
    (mkForm (formActions f) (formTimedDialogues f) base64 mime
       (selectedCameraSpotlight f) (customCameraMovement f)
       (selectedTone f) (customTone f))
    (app p) (reading p) (pending p).

Definition withPreferences (p : Page)
    (camera customCamera tone customTone : jsstring) : Page :=
  let f := form p in
  mkPage
    (mkForm (formActions f) (formTimedDialogues f) (imageBase64 f)
       (imageMimeType f) camera customCamera tone customTone)
    (app p) (reading p) (pending p).

Definition withError (p : Page) (message : jsstring) : Page :=
  mkPage (form p)
    (mkApp (generatedJson (app p)) message (isLoading (app p)))
    (reading p) (pending p).

Definition withGeneratedJson (p : Page) (json : jsstring) : Page :=
  mkPage (form p)
    (mkApp json (error (app p)) (isLoading (app p)))
    (reading p) (pending p).

Definition withReading (p : Page) (l : list jsstring) : Page :=
  mkPage (form p) (app p) l (pending p).

(** [l] without its [k]-th element. *)
Definition removeAt {A} (k : nat) (l : list A) : list A :=
  firstn k l ++ skipn (S k) l.

(** Lines 144-170, up to [reader.readAsDataURL(file)]: [file] is the type
    of [event.target.files?.[0]], if there is one. *)
Definition handleImageChange (p : Page) (file : option jsstring) : Page :=
  match file with
  | None => p
  | Some type =>
      if negb (includes validTypes type) then withError p MSG_FILE_TYPE
      else withReading (withError p []) (reading p ++ [type])
  end.

(** Lines 156-161: the read of the [k]-th file ends with [result]. *)
Definition readerOnload (p : Page) (k : nat) (result : jsstring) : Page :=
  match nth_error (reading p) k with
  | None => p
  | Some type =>
      let base64Data := nth_error (split_on (chr ",") result) 1 in
      withReading (withImage p base64Data (Some type))
        (removeAt k (reading p))
  end.

(** Lines 162-164: the read of the [k]-th file fails. *)
Definition readerOnerror (p : Page) (k : nat) : Page :=
  match nth_error (reading p) k with
  | None => p
  | Some _ => withReading (withError p MSG_READ) (removeAt k (reading p))
  end.

(** Lines 172-178. *)
Definition handleRemoveImage (p : Page) : Page := withImage p None None.

(** Line 216. *)
Definition isGenerateDisabled (p : Page) : bool :=
  (forallb (fun a => negb (truthy (trim (Action.description a))))
     (formActions (form p))
   && forallb (fun d => negb (truthy (trim (TimedDialogue.dialogueText d))))
        (formTimedDialogues (form p))
   && negb (truthyOpt (imageBase64 (form p))))
  || isLoading (app p).

Section AppMachine.

Variable numberToString : jsstring -> jsstring.
Variable syntaxErrorMessage : jsstring -> jsstring.

(** Lines 180-195: [handleGenerate] up to its [await]. The call is made
    with the form as it stands; its outcome is kept until it settles. *)
Definition handleGenerateStart (w : World) (p : Page) : Page :=
  mkPage (form p)
    {| generatedJson := []; error := []; isLoading := true |}
    (reading p)
    (pending p
     ++ [outcome (generateVeoPrompt numberToString syntaxErrorMessage w
                    (formInput (form p)))]).

(** Lines 196-205: the [k]-th pending call settles. *)
Definition handleGenerateSettle (p : Page) (k : nat) : Page :=
  match nth_error (pending p) k with
  | None => p
  | Some (Normal result) =>
      mkPage (form p)
        {| generatedJson := result;
           error := error (app p);
           isLoading := false |}
        (reading p) (removeAt k (pending p))
  | Some (Throw err) =>
      mkPage (form p)
        {| generatedJson := generatedJson (app p);
           error := displayedError err;
           isLoading := false |}
        (reading p) (removeAt k (pending p))
  end.

(** What can happen to the page. A click on the Generate button reaches
    [handleGenerate] only while the button is enabled (line 430). *)
Inductive UiEvent : Type :=
| ActionChange (index : nat) (field : ActionField) (value : jsstring)
| AddAction
| RemoveAction (index : nat)
| DialogueChange (index : nat) (field : DialogueField) (value : jsstring)
| AddDialogue
| RemoveDialogue (index : nat)
| ImageChange (file : option jsstring)
| ReaderLoad (k : nat) (result : jsstring)
| ReaderError (k : nat)
| RemoveImage
| SelectTone (value : jsstring)
| TypeCustomTone (value : jsstring)
| SelectCameraSpotlight (value : jsstring)
| TypeCustomCameraMovement (value : jsstring)
| ClickGenerate (w : World)
| Settle (k : nat)
| EditGeneratedJson (value : jsstring).

Definition step (p : Page) (e : UiEvent) : Page :=
  let f := form p in
  match e with
  | ActionChange index field value =>
      match handleActionChange (formActions f) index field value with
      | Some l => withActions p l
      | None => p
      end
  | AddAction => withActions p (addAction (formActions f))
  | RemoveAction index => withActions p (removeAction (formActions f) index)
  | DialogueChange index field value =>
      match handleDialogueChange (formTimedDialogues f) index field value with
      | Some l => withDialogues p l
      | None => p
      end
  | AddDialogue => withDialogues p (addDialogue (formTimedDialogues f))
  | RemoveDialogue index =>
      withDialogues p (removeDialogue (formTimedDialogues f) index)
  | ImageChange file => handleImageChange p file
  | ReaderLoad k result => readerOnload p k result
  | ReaderError k => readerOnerror p k
  | RemoveImage => handleRemoveImage p
  | SelectTone value =>
      withPreferences p (selectedCameraSpotlight f) (customCameraMovement f)
        value (customTone f)
  | TypeCustomTone value =>
      withPreferences p (selectedCameraSpotlight f) (customCameraMovement f)
        (selectedTone f) value
  | SelectCameraSpotlight value =>
      withPreferences p value (customCameraMovement f)
        (selectedTone f) (customTone f)
  | TypeCustomCameraMovement value =>
      withPreferences p (selectedCameraSpotlight f) value
        (selectedTone f) (customTone f)
  | ClickGenerate w =>
      if isGenerateDisabled p then p else handleGenerateStart w p
  | Settle k => handleGenerateSettle p k
  | EditGeneratedJson value => withGeneratedJson p value
  end.

(** The state of the first render (lines 82-94). *)
Definition initialPage : Page :=
  {| form :=
       {| formActions := [blankAction];
          formTimedDialogues := [blankDialogue];
          imageBase64 := None;
          imageMimeType := None;
          selectedCameraSpotlight := lit "Automatic";
          customCameraMovement := [];
          selectedTone := lit "Automatic";
          customTone := [] |};
     app := {| generatedJson := []; error := []; isLoading := false |};
     reading := [];
     pending := [] |}.

(** The page after a history of events. *)
Definition pageAfter (history : list UiEvent) : Page :=
  fold_left step history initialPage.

End AppMachine.

(** The messages [setError] can receive from a page that started from
    the first render. *)
Definition shownErrors : list jsstring :=
  [[]; MSG_FILE_TYPE; MSG_READ; MSG_API_KEY; MSG_UNEXPECTED].

(** [action[field]]. *)
Definition getActionField (a : Action.t) (field : ActionField) : jsstring :=
  match field with
  | AStartTime => Action.startTime a
  | AEndTime => Action.endTime a
  | ADescription => Action.description a
  end.

Definition getDialogueField (d : TimedDialogue.t) (field : DialogueField)
    : jsstring :=
  match field with
  | DStartTime => TimedDialogue.startTime d
  | DEndTime => TimedDialogue.endTime d
  | DDialogueText => TimedDialogue.dialogueText d
  end.

Definition sameActionField (f g : ActionField) : bool :=
  match f, g with
  | AStartTime, AStartTime | AEndTime, AEndTime
  | ADescription, ADescription => true
  | _, _ => false
  end.

Definition sameDialogueField (f g : DialogueField) : bool :=
  match f, g with
  | DStartTime, DStartTime | DEndTime, DEndTime
  | DDialogueText, DDialogueText => true
  | _, _ => false
  end.

(** An outcome of a call that was made from an enabled button. *)
Definition settlesQuietly (c : Completion jsstring) : Prop :=
  match c with
  | Normal result => truthy result = true
  | Throw (ErrorObject message) => message = MSG_API_KEY
  | Throw _ => True
  end.

(** What every page reached from the first render satisfies. *)
Definition pageInvariant (p : Page) : Prop :=
  formActions (form p) <> []
  /\ formTimedDialogues (form p) <> []
  /\ Forall (fun type => includes validTypes type = true) (reading p)
  /\ (forall m, imageMimeType (form p) = Some m ->
                includes validTypes m = true)
  /\ (imageMimeType (form p) = None -> imageBase64 (form p) = None)
  /\ length (pending p) = (if isLoading (app p) then 1%nat else 0%nat)
  /\ Forall settlesQuietly (pending p)
  /\ In (error (app p)) shownErrors.

(** A part that carries an image of a type the upload accepts, or text. *)
Definition hasValidType (part : Part) : bool :=
  match part with
  | InlineData mime _ => includes validTypes mime
  | Text _ => true
  end.

(* ================================================================== *)
(** ** Concrete inputs for the examples *)

(** An ASCII literal in which the apostrophe stands for the quotation
    mark. *)
Definition qlit (s : string) : jsstring :=
  map (fun c => if c =? chr "'" then DQUOTE else c) (lit s).

(** An engine for the examples. Their responses hold safe-integer
    literals only, which never reach [numberToString]. *)
Definition exampleNumberToString (l : jsstring) : jsstring := l.
Definition exampleSyntaxErrorMessage (text : jsstring) : jsstring :=
  lit "Unexpected end of JSON input".

(** A world whose endpoint gives the same result to every request. *)
Definition worldWith (key : option jsstring) (r : ApiResult) : World :=
  {| API_KEY := key; generateContent := fun _ => r |}.

(** The example of the spec's section 8. *)
Definition knightInput : VeoPromptInput :=
  {| actions := [Action.mk (lit "0") (lit "2") (lit "Knight walks")];
     timedDialogues :=
       [TimedDialogue.mk (lit "0") (lit "2") (lit "Mau pergi kemana?")];
     cameraMovement := lit "Automatic";
     tone := lit "Automatic";
     image := None |}.

(** The form as the UI seeds it, with blanks typed into one field. *)
Definition blankInput : VeoPromptInput :=
  {| actions := [Action.mk [] [] []];
     timedDialogues := [TimedDialogue.mk [] [] (lit "   ")];
     cameraMovement := lit "Automatic";
     tone := lit "Automatic";
     image := None |}.

(** A well-formed response of seventeen fields: [aspect_ratio] is
    missing. *)
Definition responseWithoutAspectRatio : jsstring :=
  qlit "{'prompt':'A knight walks and asks where to go.','keyword':['knight','walk'],'style':'cinematic','tone':'epic','camera':'DSLR','motion':'static','angle':'eye-level','lens':'wide-angle','lighting':'golden hour','audio':'A character speaks','setting':'medieval road','place':'a crossroads','time':'dusk','characters':['a knight'],'plot_point':'The knight walks.','duration_second':2,'negative_prompt':'blurry'}".

(** What [JSON.parse] makes of that response. *)
Definition parsedWithoutAspectRatio : JSValue :=
  JObject
    [ (lit "prompt", JString (lit "A knight walks and asks where to go."));
      (lit "keyword", JArray [JString (lit "knight"); JString (lit "walk")]);
      (lit "style", JString (lit "cinematic"));
      (lit "tone", JString (lit "epic"));
      (lit "camera", JString (lit "DSLR"));
      (lit "motion", JString (lit "static"));
      (lit "angle", JString (lit "eye-level"));
      (lit "lens", JString (lit "wide-angle"));
      (lit "lighting", JString (lit "golden hour"));
      (lit "audio", JString (lit "A character speaks"));
      (lit "setting", JString (lit "medieval road"));
      (lit "place", JString (lit "a crossroads"));
      (lit "time", JString (lit "dusk"));
      (lit "characters", JArray [JString (lit "a knight")]);
      (lit "plot_point", JString (lit "The knight walks."));
      (lit "duration_second", JNumber (lit "2"));
      (lit "negative_prompt", JString (lit "blurry")) ].

(** The string [generateVeoPrompt] resolves with on that response. *)
Definition prettyWithoutAspectRatio : jsstring :=
  join [LF]
    [ qlit "{";
      qlit "  'prompt': 'A knight walks and asks where to go.',";
      qlit "  'keyword': [";
      qlit "    'knight',";
      qlit "    'walk'";
      qlit "  ],";
      qlit "  'style': 'cinematic',";
      qlit "  'tone': 'epic',";
      qlit "  'camera': 'DSLR',";
      qlit "  'motion': 'static',";
      qlit "  'angle': 'eye-level',";
      qlit "  'lens': 'wide-angle',";
      qlit "  'lighting': 'golden hour',";
      qlit "  'audio': 'A character speaks',";
      qlit "  'setting': 'medieval road',";
      qlit "  'place': 'a crossroads',";
      qlit "  'time': 'dusk',";
      qlit "  'characters': [";
      qlit "    'a knight'";
      qlit "  ],";
      qlit "  'plot_point': 'The knight walks.',";
      qlit "  'duration_second': 2,";
      qlit "  'negative_prompt': 'blurry'";
      qlit "}" ].

(** An action whose start time is a single space. *)
Definition blankStartAction : Action.t :=
  Action.mk (lit " ") (lit "soon") (lit " Knight walks ").

Definition blankEndDialogue : TimedDialogue.t :=
  TimedDialogue.mk [] (lit "  ") (lit "Mau pergi kemana?").

(** A configured world whose endpoint answers with that response. *)
Definition answeringWorld : World :=
  worldWith (Some (lit "secret")) (ApiResponds responseWithoutAspectRatio).

(** A world with no credential. *)
Definition unconfiguredWorld : World :=
  worldWith None (ApiResponds responseWithoutAspectRatio).

(** A configured world whose endpoint answers with plain prose. *)
Definition proseWorld : World :=
  worldWith (Some (lit "secret")) (ApiResponds (lit "not json")).

(** A configured world whose endpoint answers with a cut-off object. *)
Definition truncatedWorld : World :=
  worldWith (Some (lit "secret")) (ApiResponds (qlit "{'prompt':")).

(** A configured world whose endpoint refuses the call. *)
Definition refusingWorld : World :=
  worldWith (Some (lit "secret"))
    (ApiRejects (ErrorObject (lit "429 quota exceeded"))).

Abbreviation run_example :=
  (generateVeoPrompt exampleNumberToString exampleSyntaxErrorMessage).

(** The first render after a PNG file was chosen: its read is under way. *)
Definition uploadingPage : Page :=
  handleImageChange initialPage (Some (lit "image/png")).

(** The user types a description into the first action row. *)
Definition typedHistory : list UiEvent :=
  [ActionChange 0 ADescription (lit "Knight walks")].

(** The user types a description, clicks Generate and, while the call is
    under way, chooses a file of a refused type. *)
Definition interruptedHistory : list UiEvent :=
  [ ActionChange 0 ADescription (lit "Knight walks");
    ClickGenerate answeringWorld;
    ImageChange (Some (lit "image/gif")) ].

(* ================================================================== *)
(** ** Strings: basic facts *)

Lemma str_eqb_eq (a b : jsstring) : str_eqb a b = true <-> a = b.
Proof.
  revert b; induction a as [|x a IH]; intros [|y b]; simpl;
    try (split; [discriminate | discriminate]); try tauto.
  rewrite andb_true_iff, N.eqb_eq, IH.
  split; [intros [-> ->]; reflexivity | intros H; injection H; auto].
Qed.

Lemma str_eqb_refl (a : jsstring) : str_eqb a a = true.
Proof. apply str_eqb_eq; reflexivity. Qed.

Lemma str_eqb_neq (a b : jsstring) : str_eqb a b = false <-> a <> b.
Proof.
  rewrite <- str_eqb_eq. destruct (str_eqb a b); split; congruence.
Qed.

Lemma truthy_true (s : jsstring) : truthy s = true <-> s <> [].
Proof. destruct s; simpl; split; congruence. Qed.

Lemma truthy_false (s : jsstring) : truthy s = false <-> s = [].
Proof. destruct s; simpl; split; congruence. Qed.

Lemma or_else_empty (d : jsstring) : or_else [] d = d.
Proof. reflexivity. Qed.

Lemma or_else_nonempty (s d : jsstring) : s <> [] -> or_else s d = s.
Proof. destruct s; [congruence | reflexivity]. Qed.

Lemma startsWith_app (p s : jsstring) : startsWith (p ++ s) p = true.
Proof.
  induction p as [|x p IH]; simpl; [reflexivity|].
  rewrite N.eqb_refl; exact IH.
Qed.

Lemma is_valid_iff (e : Spec.TimedEntry) :
  Spec.is_valid e = true <-> Spec.valid e.
Proof.
  unfold Spec.is_valid, Spec.valid.
  destruct (trim (Spec.text e)); split; congruence.
Qed.

Lemma is_valid_truthy (e : Spec.TimedEntry) :
  Spec.is_valid e = truthy (trim (Spec.text e)).
Proof. reflexivity. Qed.

(* ================================================================== *)
(** ** The timelines *)

Lemma hasValidAction_iff (acts : list Action.t) :
  hasValidAction acts = true
  <-> exists e, In e (map entryOfAction acts) /\ Spec.valid e.
Proof.
  unfold hasValidAction. rewrite existsb_exists. split.
  - intros (a & Hin & Ht). exists (entryOfAction a). split.
    + apply in_map; exact Hin.
    + apply truthy_true in Ht. exact Ht.
  - intros (e & Hin & Hv). apply in_map_iff in Hin as (a & <- & Hin).
    exists a. split; [exact Hin | apply truthy_true; exact Hv].
Qed.

Lemma hasValidDialogue_iff (ds : list TimedDialogue.t) :
  hasValidDialogue ds = true
  <-> exists e, In e (map entryOfDialogue ds) /\ Spec.valid e.
Proof.
  unfold hasValidDialogue. rewrite existsb_exists. split.
  - intros (d & Hin & Ht). exists (entryOfDialogue d). split.
    + apply in_map; exact Hin.
    + apply truthy_true in Ht. exact Ht.
  - intros (e & Hin & Hv). apply in_map_iff in Hin as (d & <- & Hin).
    exists d. split; [exact Hin | apply truthy_true; exact Hv].
Qed.

Lemma existsb_false_forall {A} (f : A -> bool) (l : list A) :
  existsb f l = false <-> forall x, In x l -> f x = false.
Proof.
  induction l as [|a l IH]; simpl.
  - split; [intros _ x [] | reflexivity].
  - rewrite orb_false_iff, IH. split.
    + intros [Ha Hl] x [<- | Hx]; auto.
    + intros H; split; [apply H; left; reflexivity | intros x Hx; apply H; right; exact Hx].
Qed.

Lemma hasValidAction_false_iff (acts : list Action.t) :
  hasValidAction acts = false
  <-> forall e, In e (map entryOfAction acts) -> ~ Spec.valid e.
Proof.
  rewrite <- not_true_iff_false, hasValidAction_iff. split.
  - intros H e Hin Hv. apply H. exists e; auto.
  - intros H (e & Hin & Hv). exact (H e Hin Hv).
Qed.

Lemma hasValidDialogue_false_iff (ds : list TimedDialogue.t) :
  hasValidDialogue ds = false
  <-> forall e, In e (map entryOfDialogue ds) -> ~ Spec.valid e.
Proof.
  rewrite <- not_true_iff_false, hasValidDialogue_iff. split.
  - intros H e Hin Hv. apply H. exists e; auto.
  - intros H (e & Hin & Hv). exact (H e Hin Hv).
Qed.

(** The template literal of the code is the line of the spec. *)
Lemma actionLine_spec (a : Action.t) :
  actionLine a = Spec.line false (entryOfAction a).
Proof.
  destruct a as [st en de]. unfold actionLine, Spec.line, entryOfAction. simpl.
  destruct st, en; reflexivity.
Qed.

Lemma dialogueLine_spec (d : TimedDialogue.t) :
  dialogueLine d = Spec.line true (entryOfDialogue d).
Proof.
  destruct d as [st en tx]. unfold dialogueLine, Spec.line, entryOfDialogue.
  simpl. destruct st, en; reflexivity.
Qed.

Lemma timelineLines_rendered (acts : list Action.t) :
  Spec.Rendered false (map entryOfAction acts) (timelineLines acts).
Proof.
  unfold timelineLines.
  induction acts as [|a acts IH]; simpl; [constructor|].
  destruct (truthy (trim (Action.description a))) eqn:Ht; simpl.
  - rewrite actionLine_spec. constructor; [|exact IH].
    apply truthy_true in Ht; exact Ht.
  - constructor; [|exact IH].
    apply truthy_false in Ht. intros Hv; apply Hv; exact Ht.
Qed.

Lemma dialogueTimelineLines_rendered (ds : list TimedDialogue.t) :
  Spec.Rendered true (map entryOfDialogue ds) (dialogueTimelineLines ds).
Proof.
  unfold dialogueTimelineLines.
  induction ds as [|d ds IH]; simpl; [constructor|].
  destruct (truthy (trim (TimedDialogue.dialogueText d))) eqn:Ht; simpl.
  - rewrite dialogueLine_spec. constructor; [|exact IH].
    apply truthy_true in Ht; exact Ht.
  - constructor; [|exact IH].
    apply truthy_false in Ht. intros Hv; apply Hv; exact Ht.
Qed.

(** [Rendered] determines the lines, and their number. *)
Lemma Rendered_length (q : bool) (es : list Spec.TimedEntry)
    (ls : list jsstring) :
  Spec.Rendered q es ls -> length ls = Spec.count_valid es.
Proof.
  induction 1 as [|e es ls Hv _ IH|e es ls Hv _ IH]; simpl.
  - reflexivity.
  - apply is_valid_iff in Hv. rewrite Hv, IH. reflexivity.
  - destruct (Spec.is_valid e) eqn:Hb; [|exact IH].
    apply is_valid_iff in Hb. contradiction.
Qed.

Lemma Rendered_functional (q : bool) (es : list Spec.TimedEntry)
    (ls ls' : list jsstring) :
  Spec.Rendered q es ls -> Spec.Rendered q es ls' -> ls = ls'.
Proof.
  intros H; revert ls'.
  induction H as [|e es ls Hv _ IH|e es ls Hv _ IH]; intros ls' H';
    inversion H'; subst; try contradiction.
  - reflexivity.
  - f_equal. apply IH. assumption.
  - apply IH. assumption.
Qed.

Lemma count_valid_pos (es : list Spec.TimedEntry) :
  (exists e, In e es /\ Spec.valid e) -> (0 < Spec.count_valid es)%nat.
Proof.
  intros (e & Hin & Hv). induction es as [|x es IH]; [destruct Hin|].
  simpl. destruct (Spec.is_valid x) eqn:Hx; [lia|].
  destruct Hin as [-> | Hin]; [|exact (IH Hin)].
  apply is_valid_iff in Hv. congruence.
Qed.

(* ================================================================== *)
(** ** The parts *)

Lemma parts_blocks (i : VeoPromptInput) :
  parts i
  = imageParts (image i) ++ actionParts (actions i)
    ++ dialogueParts (timedDialogues i)
    ++ preferenceParts (lit "CAMERA MOVEMENT PREFERENCE: ") (cameraMovement i)
    ++ preferenceParts (lit "TONE PREFERENCE: ") (tone i).
Proof.
  unfold parts, imageParts, actionParts, dialogueParts, preferenceParts, push.
  destruct (image i);
    destruct (hasValidAction (actions i));
    destruct (hasValidDialogue (timedDialogues i));
    destruct (truthy (cameraMovement i)
              && negb (str_eqb (cameraMovement i) (lit "Automatic")));
    destruct (truthy (tone i) && negb (str_eqb (tone i) (lit "Automatic")));
    cbv beta iota zeta; rewrite ?app_nil_l, ?app_nil_r, <- ?app_assoc;
    reflexivity.
Qed.

Lemma automatic_dec (value : jsstring) :
  truthy value && negb (str_eqb value (lit "Automatic")) = false
  <-> Spec.automatic value.
Proof.
  unfold Spec.automatic. rewrite andb_false_iff, negb_false_iff.
  rewrite truthy_false, str_eqb_eq. reflexivity.
Qed.

Lemma preferenceParts_spec (label value : jsstring) :
  Spec.preference_block label value (preferenceParts label value).
Proof.
  unfold Spec.preference_block, preferenceParts.
  destruct (truthy value && negb (str_eqb value (lit "Automatic"))) eqn:E.
  - right. split; [|reflexivity].
    intros Ha. apply automatic_dec in Ha. congruence.
  - left. split; [|reflexivity]. apply automatic_dec; exact E.
Qed.

Lemma imageParts_spec (img : option Image.t) :
  Spec.image_block img (imageParts img).
Proof. destruct img; reflexivity. Qed.

Lemma actionParts_spec (acts : list Action.t) :
  Spec.timeline_block (lit "ACTION TIMELINE:") (map entryOfAction acts)
    (timeline acts) (actionParts acts).
Proof.
  unfold Spec.timeline_block, actionParts.
  destruct (hasValidAction acts) eqn:E.
  - left. split; [apply hasValidAction_iff; exact E | reflexivity].
  - right. split; [apply hasValidAction_false_iff; exact E | reflexivity].
Qed.

Lemma dialogueParts_spec (ds : list TimedDialogue.t) :
  Spec.timeline_block (lit "DIALOGUE TIMELINE (IN INDONESIAN):")
    (map entryOfDialogue ds) (dialogueTimeline ds) (dialogueParts ds).
Proof.
  unfold Spec.timeline_block, dialogueParts.
  destruct (hasValidDialogue ds) eqn:E.
  - left. split; [apply hasValidDialogue_iff; exact E | reflexivity].
  - right. split; [apply hasValidDialogue_false_iff; exact E | reflexivity].
Qed.

(** Only the camera block carries the camera label, and only the tone
    block the tone label. *)
Lemma filter_camera_parts (i : VeoPromptInput) :
  filter isCameraPart (parts i)
  = preferenceParts (lit "CAMERA MOVEMENT PREFERENCE: ") (cameraMovement i).
Proof.
  rewrite parts_blocks, !filter_app.
  assert (Hi : filter isCameraPart (imageParts (image i)) = [])
    by (destruct (image i); reflexivity).
  assert (Ha : filter isCameraPart (actionParts (actions i)) = [])
    by (unfold actionParts; destruct (hasValidAction _); reflexivity).
  assert (Hd : filter isCameraPart (dialogueParts (timedDialogues i)) = [])
    by (unfold dialogueParts; destruct (hasValidDialogue _); reflexivity).
  assert (Ht : filter isCameraPart
                 (preferenceParts (lit "TONE PREFERENCE: ") (tone i)) = [])
    by (unfold preferenceParts; destruct (_ && _); reflexivity).
  rewrite Hi, Ha, Hd, Ht, app_nil_r. simpl app.
  unfold preferenceParts. destruct (_ && _); [|reflexivity].
  cbn [filter isCameraPart]. rewrite startsWith_app. reflexivity.
Qed.

Lemma filter_tone_parts (i : VeoPromptInput) :
  filter isTonePart (parts i)
  = preferenceParts (lit "TONE PREFERENCE: ") (tone i).
Proof.
  rewrite parts_blocks, !filter_app.
  assert (Hi : filter isTonePart (imageParts (image i)) = [])
    by (destruct (image i); reflexivity).
  assert (Ha : filter isTonePart (actionParts (actions i)) = [])
    by (unfold actionParts; destruct (hasValidAction _); reflexivity).
  assert (Hd : filter isTonePart (dialogueParts (timedDialogues i)) = [])
    by (unfold dialogueParts; destruct (hasValidDialogue _); reflexivity).
  assert (Hc : filter isTonePart
                 (preferenceParts (lit "CAMERA MOVEMENT PREFERENCE: ")
                    (cameraMovement i)) = [])
    by (unfold preferenceParts; destruct (_ && _); reflexivity).
  rewrite Hi, Ha, Hd, Hc. simpl app.
  unfold preferenceParts. destruct (_ && _); [|reflexivity].
  cbn [filter isTonePart]. rewrite startsWith_app. reflexivity.
Qed.

(* ================================================================== *)
(** ** [JSON.parse]: the fuel is enough *)

Lemma skip_ws_length (s : jsstring) : (length (skip_ws s) <= length s)%nat.
Proof.
  induction s as [|c r IH]; simpl; [lia|].
  destruct (isJSONWhiteSpace c); simpl; lia.
Qed.

Lemma span_digits_length (s d r : jsstring) :
  span_digits s = (d, r) -> (length r <= length s)%nat.
Proof.
  revert d r; induction s as [|c s IH]; simpl; intros d r H.
  - injection H as <- <-. simpl; lia.
  - destruct (isDigit c).
    + destruct (span_digits s) as [d' r'] eqn:E. injection H as <- <-.
      specialize (IH d' r' eq_refl). lia.
    + injection H as <- <-. simpl; lia.
Qed.

Lemma parse_sign_length (s sg r : jsstring) :
  parse_sign s = (sg, r) -> (length r <= length s)%nat.
Proof.
  unfold parse_sign. destruct s as [|c s]; intros H.
  - injection H as <- <-. simpl; lia.
  - destruct (_ =? _); injection H as <- <-; simpl; lia.
Qed.

Lemma parse_int_length (s i r : jsstring) :
  parse_int s = Some (i, r) -> (length r < length s)%nat.
Proof.
  unfold parse_int. destruct s as [|c s]; intros H; [discriminate|].
  destruct (isDigit c); [|discriminate].
  destruct (_ =? _).
  - injection H as <- <-. simpl; lia.
  - destruct (span_digits s) as [d r'] eqn:E. injection H as <- <-.
    apply span_digits_length in E. simpl; lia.
Qed.

Lemma parse_frac_length (s f r : jsstring) :
  parse_frac s = Some (f, r) -> (length r <= length s)%nat.
Proof.
  unfold parse_frac. destruct s as [|p s]; intros H.
  - injection H as <- <-. simpl; lia.
  - destruct (_ =? _).
    + destruct (span_digits s) as [d r'] eqn:E.
      apply span_digits_length in E.
      destruct d; [discriminate|]. injection H as <- <-. simpl; lia.
    + injection H as <- <-. simpl; lia.
Qed.

Lemma parse_exp_length (s x r : jsstring) :
  parse_exp s = Some (x, r) -> (length r <= length s)%nat.
Proof.
  unfold parse_exp. destruct s as [|e s]; intros H.
  - injection H as <- <-. simpl; lia.
  - destruct (_ || _).
    + destruct (match s with [] => _ | _ :: _ => _ end) as [sg r1] eqn:E1.
      assert (Hs : (length r1 <= length s)%nat).
      { destruct s as [|g s'].
        - injection E1 as <- <-. lia.
        - destruct (_ || _); injection E1 as <- <-; simpl; lia. }
      destruct (span_digits r1) as [d r2] eqn:E2.
      apply span_digits_length in E2.
      destruct d; [discriminate|]. injection H as <- <-. simpl; lia.
    + injection H as <- <-. simpl; lia.
Qed.

Lemma parse_number_length (s l r : jsstring) :
  parse_number s = Some (l, r) -> (length r < length s)%nat.
Proof.
  unfold parse_number. destruct (parse_sign s) as [sg s1] eqn:E0.
  apply parse_sign_length in E0.
  destruct (parse_int s1) as [[i s2]|] eqn:E1; [|discriminate].
  apply parse_int_length in E1.
  destruct (parse_frac s2) as [[f s3]|] eqn:E2; [|discriminate].
  apply parse_frac_length in E2.
  destruct (parse_exp s3) as [[x s4]|] eqn:E3; [|discriminate].
  apply parse_exp_length in E3.
  intros H; injection H as <- <-. lia.
Qed.

Lemma parse_chars_length_bounded (n : nat) :
  forall s str r, (length s <= n)%nat ->
    parse_chars s = Some (str, r) -> (length r < length s)%nat.
Proof.
  induction n as [|n IH]; intros s str r Hn H.
  - destruct s; [discriminate | simpl in Hn; lia].
  - destruct s as [|c s]; [discriminate|]. simpl in Hn.
    cbn [parse_chars] in H.
    destruct (_ =? _).
    { injection H as <- <-. simpl; lia. }
    destruct (_ =? _).
    + destruct s as [|e r1]; [discriminate|].
      destruct (_ =? _).
      * destruct r1 as [|h1 [|h2 [|h3 [|h4 r2]]]]; try discriminate.
        destruct (hexValue h1), (hexValue h2), (hexValue h3), (hexValue h4);
          try discriminate.
        destruct (parse_chars r2) as [[str' rest]|] eqn:E; [|discriminate].
        injection H as <- <-.
        apply IH in E; [|simpl in Hn; lia]. simpl; lia.
      * destruct (unescape e); [|discriminate].
        destruct (parse_chars r1) as [[str' rest]|] eqn:E; [|discriminate].
        injection H as <- <-.
        apply IH in E; [|simpl in Hn; lia]. simpl; lia.
    + destruct (_ <? _); [discriminate|].
      destruct (parse_chars s) as [[str' rest]|] eqn:E; [|discriminate].
      injection H as <- <-.
      apply IH in E; [|lia]. simpl; lia.
Qed.

Lemma parse_chars_length (s str r : jsstring) :
  parse_chars s = Some (str, r) -> (length r < length s)%nat.
Proof. apply (parse_chars_length_bounded (length s)). lia. Qed.

Lemma startsWith_length (s p : jsstring) :
  startsWith s p = true -> (length p <= length s)%nat.
Proof.
  revert s; induction p as [|x p IH]; intros s H; simpl; [lia|].
  destruct s as [|y s]; [discriminate|]. simpl in H.
  apply andb_true_iff in H as [_ H]. apply IH in H. simpl; lia.
Qed.

(** A parsed value consumed at least one code unit. *)
Lemma parse_shrinks (fuel : nat) :
  (forall s v r, parse_value fuel s = Parsed v r ->
                 (length r < length s)%nat)
  /\ (forall acc s v r, parse_elements fuel acc s = Parsed v r ->
                        (length r < length s)%nat)
  /\ (forall acc s v r, parse_members fuel acc s = Parsed v r ->
                        (length r < length s)%nat).
Proof.
  induction fuel as [|fuel (IHv & IHe & IHm)].
  { repeat split; intros; discriminate. }
  repeat split.
  - intros s v r H. cbn [parse_value] in H.
    destruct s as [|c s]; [discriminate|].
    destruct (c =? chr "{").
    { pose proof (skip_ws_length s) as Hw.
      destruct (skip_ws s) as [|c' r'] eqn:E; [discriminate|].
      destruct (c' =? chr "}").
      - injection H as <- <-. simpl in *; lia.
      - apply IHm in H. simpl in *; lia. }
    destruct (c =? chr "[").
    { pose proof (skip_ws_length s) as Hw.
      destruct (skip_ws s) as [|c' r'] eqn:E; [discriminate|].
      destruct (c' =? chr "]").
      - injection H as <- <-. simpl in *; lia.
      - apply IHe in H. simpl in *; lia. }
    destruct (c =? DQUOTE).
    { destruct (parse_chars s) as [[str rest]|] eqn:E; [|discriminate].
      apply parse_chars_length in E. injection H as <- <-. simpl; lia. }
    destruct (startsWith (c :: s) (lit "true")) eqn:Et.
    { apply startsWith_length in Et. injection H as <- <-.
      change (length (skipn 4 (c :: s)) < length (c :: s))%nat.
      rewrite length_skipn. simpl in *; lia. }
    destruct (startsWith (c :: s) (lit "false")) eqn:Ef.
    { apply startsWith_length in Ef. injection H as <- <-.
      change (length (skipn 5 (c :: s)) < length (c :: s))%nat.
      rewrite length_skipn. simpl in *; lia. }
    destruct (startsWith (c :: s) (lit "null")) eqn:En.
    { apply startsWith_length in En. injection H as <- <-.
      change (length (skipn 4 (c :: s)) < length (c :: s))%nat.
      rewrite length_skipn. simpl in *; lia. }
    destruct (parse_number (c :: s)) as [[l rest]|] eqn:E; [|discriminate].
    apply parse_number_length in E. injection H as <- <-. exact E.
  - intros acc s v r H. cbn [parse_elements] in H.
    pose proof (skip_ws_length s) as Hw.
    destruct (parse_value fuel (skip_ws s)) as [v' r'| |] eqn:E;
      try discriminate.
    apply IHv in E. pose proof (skip_ws_length r') as Hw'.
    destruct (skip_ws r') as [|c r''] eqn:E'; [discriminate|].
    destruct (c =? chr ",").
    { apply IHe in H. simpl in *; lia. }
    destruct (c =? chr "]"); [|discriminate].
    injection H as <- <-. simpl in *; lia.
  - intros acc s v r H. cbn [parse_members] in H.
    pose proof (skip_ws_length s) as Hw.
    destruct (skip_ws s) as [|q r0] eqn:E0; [discriminate|].
    destruct (q =? DQUOTE); [|discriminate].
    destruct (parse_chars r0) as [[k r1]|] eqn:E1; [|discriminate].
    apply parse_chars_length in E1.
    pose proof (skip_ws_length r1) as Hw1.
    destruct (skip_ws r1) as [|c r2] eqn:E2; [discriminate|].
    destruct (c =? chr ":"); [|discriminate].
    pose proof (skip_ws_length r2) as Hw2.
    destruct (parse_value fuel (skip_ws r2)) as [v' r3| |] eqn:E3;
      try discriminate.
    apply IHv in E3. pose proof (skip_ws_length r3) as Hw3.
    destruct (skip_ws r3) as [|c' r4] eqn:E4; [discriminate|].
    destruct (c' =? chr ",").
    { apply IHm in H. simpl in *; lia. }
    destruct (c' =? chr "}"); [|discriminate].
    injection H as <- <-. simpl in *; lia.
Qed.

(** With two units of fuel per code unit the parser never starves. *)
Lemma parse_never_starves (fuel : nat) :
  (forall s, (2 * length s + 1 <= fuel)%nat ->
             finished (parse_value fuel s) = true)
  /\ (forall acc s, (2 * length s + 2 <= fuel)%nat ->
                    finished (parse_elements fuel acc s) = true)
  /\ (forall acc s, (2 * length s + 2 <= fuel)%nat ->
                    finished (parse_members fuel acc s) = true).
Proof.
  induction fuel as [|fuel (IHv & IHe & IHm)].
  { repeat split; intros; lia. }
  destruct (parse_shrinks fuel) as (Sv & _ & _).
  repeat split.
  - intros s Hf. cbn [parse_value].
    destruct s as [|c s]; [reflexivity|]. simpl length in Hf.
    destruct (c =? chr "{").
    { pose proof (skip_ws_length s) as Hw.
      destruct (skip_ws s) as [|c' r'] eqn:E; [reflexivity|].
      destruct (c' =? chr "}"); [reflexivity|].
      apply IHm. simpl in *; lia. }
    destruct (c =? chr "[").
    { pose proof (skip_ws_length s) as Hw.
      destruct (skip_ws s) as [|c' r'] eqn:E; [reflexivity|].
      destruct (c' =? chr "]"); [reflexivity|].
      apply IHe. simpl in *; lia. }
    destruct (c =? DQUOTE).
    { destruct (parse_chars s) as [[str rest]|]; reflexivity. }
    destruct (startsWith (c :: s) (lit "true")); [reflexivity|].
    destruct (startsWith (c :: s) (lit "false")); [reflexivity|].
    destruct (startsWith (c :: s) (lit "null")); [reflexivity|].
    destruct (parse_number (c :: s)) as [[l rest]|]; reflexivity.
  - intros acc s Hf. cbn [parse_elements].
    pose proof (skip_ws_length s) as Hw.
    assert (Hv : finished (parse_value fuel (skip_ws s)) = true)
      by (apply IHv; lia).
    destruct (parse_value fuel (skip_ws s)) as [v' r'| |] eqn:E;
      [|reflexivity|discriminate].
    apply Sv in E. pose proof (skip_ws_length r') as Hw'.
    destruct (skip_ws r') as [|c r''] eqn:E'; [reflexivity|].
    destruct (c =? chr ","); [apply IHe; simpl in *; lia|].
    destruct (c =? chr "]"); reflexivity.
  - intros acc s Hf. cbn [parse_members].
    pose proof (skip_ws_length s) as Hw.
    destruct (skip_ws s) as [|q r0] eqn:E0; [reflexivity|].
    destruct (q =? DQUOTE); [|reflexivity].
    destruct (parse_chars r0) as [[k r1]|] eqn:E1; [|reflexivity].
    apply parse_chars_length in E1.
    pose proof (skip_ws_length r1) as Hw1.
    destruct (skip_ws r1) as [|c r2] eqn:E2; [reflexivity|].
    destruct (c =? chr ":"); [|reflexivity].
    pose proof (skip_ws_length r2) as Hw2.
    assert (Hv : finished (parse_value fuel (skip_ws r2)) = true)
      by (apply IHv; simpl in *; lia).
    destruct (parse_value fuel (skip_ws r2)) as [v' r3| |] eqn:E3;
      [|reflexivity|discriminate].
    apply Sv in E3. pose proof (skip_ws_length r3) as Hw3.
    destruct (skip_ws r3) as [|c' r4] eqn:E4; [reflexivity|].
    destruct (c' =? chr ","); [apply IHm; simpl in *; lia|].
    destruct (c' =? chr "}"); reflexivity.
Qed.

(** A parse that finished gives the same result with more fuel. *)
Lemma parse_fuel_stable (fuel : nat) :
  (forall s, finished (parse_value fuel s) = true ->
             parse_value (S fuel) s = parse_value fuel s)
  /\ (forall acc s, finished (parse_elements fuel acc s) = true ->
                    parse_elements (S fuel) acc s = parse_elements fuel acc s)
  /\ (forall acc s, finished (parse_members fuel acc s) = true ->
                    parse_members (S fuel) acc s = parse_members fuel acc s).
Proof.
  induction fuel as [|fuel (IHv & IHe & IHm)].
  { repeat split; intros; discriminate. }
  repeat split.
  - intros s Hf.
    cbn [parse_value] in Hf. cbn [parse_value].
    destruct s as [|c s]; [reflexivity|].
    destruct (c =? chr "{").
    { destruct (skip_ws s) as [|c' r'] eqn:E; [reflexivity|].
      destruct (c' =? chr "}"); [reflexivity|]. apply IHm; exact Hf. }
    destruct (c =? chr "[").
    { destruct (skip_ws s) as [|c' r'] eqn:E; [reflexivity|].
      destruct (c' =? chr "]"); [reflexivity|]. apply IHe; exact Hf. }
    reflexivity.
  - intros acc s Hf.
    cbn [parse_elements] in Hf. cbn [parse_elements].
    destruct (parse_value fuel (skip_ws s)) as [v' r'| |] eqn:E.
    + rewrite IHv by (rewrite E; reflexivity). rewrite E.
      destruct (skip_ws r') as [|c r'']; [reflexivity|].
      destruct (c =? chr ","); [apply IHe; exact Hf | reflexivity].
    + rewrite IHv by (rewrite E; reflexivity). rewrite E. reflexivity.
    + discriminate.
  - intros acc s Hf.
    cbn [parse_members] in Hf. cbn [parse_members].
    destruct (skip_ws s) as [|q r0]; [reflexivity|].
    destruct (q =? DQUOTE); [|reflexivity].
    destruct (parse_chars r0) as [[k r1]|]; [|reflexivity].
    destruct (skip_ws r1) as [|c r2]; [reflexivity|].
    destruct (c =? chr ":"); [|reflexivity].
    destruct (parse_value fuel (skip_ws r2)) as [v' r3| |] eqn:E.
    + rewrite IHv by (rewrite E; reflexivity). rewrite E.
      destruct (skip_ws r3) as [|c' r4]; [reflexivity|].
      destruct (c' =? chr ","); [apply IHm; exact Hf | reflexivity].
    + rewrite IHv by (rewrite E; reflexivity). rewrite E. reflexivity.
    + discriminate.
Qed.

Lemma parse_value_more_fuel (fuel k : nat) (s : jsstring) :
  finished (parse_value fuel s) = true ->
  parse_value (fuel + k) s = parse_value fuel s.
Proof.
  intros Hf. induction k as [|k IH].
  - rewrite Nat.add_0_r. reflexivity.
  - rewrite Nat.add_succ_r.
    destruct (parse_fuel_stable (fuel + k)) as (Hv & _ & _).
    rewrite Hv; [exact IH | rewrite IH; exact Hf].
Qed.

(** The fuel [JSON.parse] runs with is enough for every text: the parse
    finishes, and more fuel changes nothing. *)
Theorem parse_value_fuel_enough (text : jsstring) (k : nat) :
  finished (parse_value (parse_fuel text) (skip_ws text)) = true
  /\ parse_value (parse_fuel text + k) (skip_ws text)
     = parse_value (parse_fuel text) (skip_ws text).
Proof.
  assert (Hf : finished (parse_value (parse_fuel text) (skip_ws text)) = true).
  { destruct (parse_never_starves (parse_fuel text)) as (Hv & _ & _).
    apply Hv. pose proof (skip_ws_length text). unfold parse_fuel. lia. }
  split; [exact Hf | apply parse_value_more_fuel; exact Hf].
Qed.

(* ================================================================== *)
(** ** The requester, case by case *)

Section RequesterFacts.

Variable numberToString : jsstring -> jsstring.
Variable syntaxErrorMessage : jsstring -> jsstring.

Local Abbreviation gen := (generateVeoPrompt numberToString syntaxErrorMessage).
Local Abbreviation handle := (handleGenerate numberToString syntaxErrorMessage).
Local Abbreviation stringify := (JSON_stringify numberToString).

Ltac run :=
  cbv beta iota zeta delta
    [bind emit try_catch call_generateContent call_JSON_parse ret throw
     console_error fst snd app].

Lemma second_guard (i : VeoPromptInput) :
  negb (hasValidAction (actions i))
  && negb (hasValidDialogue (timedDialogues i))
  && negb (isSome (image i))
  = negb (inputAccepted i).
Proof.
  unfold inputAccepted.
  destruct (hasValidAction _), (hasValidDialogue _), (isSome _); reflexivity.
Qed.

Lemma delimiter_check (text : jsstring) :
  negb (startsWith text (lit "{")) && negb (startsWith text (lit "["))
  = negb (looksLikeJSON text).
Proof.
  unfold looksLikeJSON.
  destruct (startsWith text (lit "{")), (startsWith text (lit "["));
    reflexivity.
Qed.

Lemma gen_key_missing (w : World) (i : VeoPromptInput) :
  key_missing w = true -> gen w i = ([], Throw (ErrorObject MSG_API_KEY)).
Proof. intros H. unfold generateVeoPrompt. rewrite H. reflexivity. Qed.

Lemma gen_input_refused (w : World) (i : VeoPromptInput) :
  key_missing w = false -> inputAccepted i = false ->
  gen w i = ([], Throw (ErrorObject MSG_INPUT)).
Proof.
  intros Hk Hi. unfold generateVeoPrompt.
  rewrite Hk, second_guard, Hi. reflexivity.
Qed.

Lemma gen_api_rejects (w : World) (i : VeoPromptInput) (reason : Thrown) :
  key_missing w = false -> inputAccepted i = true ->
  generateContent w (theRequest i) = ApiRejects reason ->
  gen w i
  = ([EvGenerateContent (theRequest i); EvConsoleError LABEL_CONSOLE reason],
     Throw (StringValue (rejectionOf reason))).
Proof.
  intros Hk Hi Hapi. unfold generateVeoPrompt.
  rewrite Hk, second_guard, Hi. run. rewrite Hapi.
  destruct reason; reflexivity.
Qed.

Lemma gen_not_json (w : World) (i : VeoPromptInput) (text : jsstring) :
  key_missing w = false -> inputAccepted i = true ->
  generateContent w (theRequest i) = ApiResponds text ->
  looksLikeJSON text = false ->
  gen w i
  = ([EvGenerateContent (theRequest i);
      EvConsoleError LABEL_CONSOLE (ErrorObject MSG_NOT_JSON)],
     Throw (StringValue (PREFIX ++ MSG_NOT_JSON))).
Proof.
  intros Hk Hi Hapi Hd. unfold generateVeoPrompt.
  rewrite Hk, second_guard, Hi. run. rewrite Hapi.
  rewrite delimiter_check, Hd. reflexivity.
Qed.

Lemma gen_parse_fails (w : World) (i : VeoPromptInput) (text : jsstring) :
  key_missing w = false -> inputAccepted i = true ->
  generateContent w (theRequest i) = ApiResponds text ->
  looksLikeJSON text = true ->
  JSON_parse text = None ->
  gen w i
  = ([EvGenerateContent (theRequest i); EvJSONparse text;
      EvConsoleError LABEL_CONSOLE (ErrorObject (syntaxErrorMessage text))],
     Throw (StringValue (PREFIX ++ syntaxErrorMessage text))).
Proof.
  intros Hk Hi Hapi Hd Hp. unfold generateVeoPrompt.
  rewrite Hk, second_guard, Hi. run. rewrite Hapi.
  rewrite delimiter_check, Hd. cbv beta iota delta [negb]. rewrite Hp.
  reflexivity.
Qed.

Lemma gen_parsed (w : World) (i : VeoPromptInput) (text : jsstring)
    (v : JSValue) :
  key_missing w = false -> inputAccepted i = true ->
  generateContent w (theRequest i) = ApiResponds text ->
  looksLikeJSON text = true ->
  JSON_parse text = Some v ->
  gen w i
  = ([EvGenerateContent (theRequest i); EvJSONparse text],
     Normal (stringify v 2)).
Proof.
  intros Hk Hi Hapi Hd Hp. unfold generateVeoPrompt.
  rewrite Hk, second_guard, Hi. run. rewrite Hapi.
  rewrite delimiter_check, Hd. cbv beta iota delta [negb]. rewrite Hp.
  reflexivity.
Qed.

End RequesterFacts.

(* ================================================================== *)
(** ** The claims *)

Section Claims.

Variable numberToString : jsstring -> jsstring.
Variable syntaxErrorMessage : jsstring -> jsstring.

Local Abbreviation gen := (generateVeoPrompt numberToString syntaxErrorMessage).
Local Abbreviation handle := (handleGenerate numberToString syntaxErrorMessage).
Local Abbreviation stringify := (JSON_stringify numberToString).

(** Every request of a run carries the assembled parts. *)
Lemma requests_of_run (w : World) (i : VeoPromptInput) :
  requests (trace (gen w i)) = []
  \/ requests (trace (gen w i)) = [theRequest i].
Proof.
  destruct (key_missing w) eqn:Hk.
  { left. rewrite (gen_key_missing _ _ w i Hk). reflexivity. }
  destruct (inputAccepted i) eqn:Hi.
  2:{ left. rewrite (gen_input_refused _ _ w i Hk Hi). reflexivity. }
  right. destruct (generateContent w (theRequest i)) as [reason|text] eqn:Hapi.
  { rewrite (gen_api_rejects _ _ w i reason Hk Hi Hapi). reflexivity. }
  destruct (looksLikeJSON text) eqn:Hd.
  2:{ rewrite (gen_not_json _ _ w i text Hk Hi Hapi Hd). reflexivity. }
  destruct (JSON_parse text) as [v|] eqn:Hp.
  - rewrite (gen_parsed _ _ w i text v Hk Hi Hapi Hd Hp). reflexivity.
  - rewrite (gen_parse_fails _ _ w i text Hk Hi Hapi Hd Hp). reflexivity.
Qed.

(** C2: for every input the assembled parts are, in this order and with
    nothing else: the image part and its caption (only if an image is
    present), the ACTION TIMELINE block (only if some action is valid),
    the DIALOGUE TIMELINE (IN INDONESIAN) block (only if some dialogue is
    valid), the CAMERA MOVEMENT PREFERENCE block and the TONE PREFERENCE
    block (each only if its value is neither empty nor "Automatic"); and
    every request a call makes carries exactly these parts. *)
Theorem C2_parts_exact_order (w : World) (i : VeoPromptInput) :
  exists img act dlg cam ton : list Part,
    parts i = img ++ act ++ dlg ++ cam ++ ton
    /\ Spec.image_block (image i) img
    /\ Spec.timeline_block (lit "ACTION TIMELINE:")
         (map entryOfAction (actions i)) (timeline (actions i)) act
    /\ Spec.timeline_block (lit "DIALOGUE TIMELINE (IN INDONESIAN):")
         (map entryOfDialogue (timedDialogues i))
         (dialogueTimeline (timedDialogues i)) dlg
    /\ Spec.preference_block (lit "CAMERA MOVEMENT PREFERENCE: ")
         (cameraMovement i) cam
    /\ Spec.preference_block (lit "TONE PREFERENCE: ") (tone i) ton
    /\ Forall (fun req => contents req = parts i)
         (requests (trace (gen w i))).
Proof.
  exists (imageParts (image i)), (actionParts (actions i)),
    (dialogueParts (timedDialogues i)),
    (preferenceParts (lit "CAMERA MOVEMENT PREFERENCE: ") (cameraMovement i)),
    (preferenceParts (lit "TONE PREFERENCE: ") (tone i)).
  split; [apply parts_blocks|].
  split; [apply imageParts_spec|].
  split; [apply actionParts_spec|].
  split; [apply dialogueParts_spec|].
  split; [apply preferenceParts_spec|].
  split; [apply preferenceParts_spec|].
  destruct (requests_of_run w i) as [-> | ->].
  - constructor.
  - constructor; [reflexivity | constructor].
Qed.

(** C3: when a timeline has a valid entry, its rendering is the lines
    of its valid entries joined with newline: exactly one line per valid
    entry and none for the others, in input order, each line
    "- {startTime or 0}-{endTime or ?} sec: {trimmed text}", the text
    in quotation marks for a dialogue. *)
Theorem C3_one_line_per_valid_entry
    (acts : list Action.t) (ds : list TimedDialogue.t) :
  ((exists a, In a acts /\ trim (Action.description a) <> []) ->
   exists ls,
     timeline acts = join [LF] ls
     /\ Spec.Rendered false (map entryOfAction acts) ls
     /\ length ls = Spec.count_valid (map entryOfAction acts)
     /\ (0 < length ls)%nat)
  /\ ((exists d, In d ds /\ trim (TimedDialogue.dialogueText d) <> []) ->
      exists ls,
        dialogueTimeline ds = join [LF] ls
        /\ Spec.Rendered true (map entryOfDialogue ds) ls
        /\ length ls = Spec.count_valid (map entryOfDialogue ds)
        /\ (0 < length ls)%nat).
Proof.
  split.
  - intros (a & Hin & Hv). exists (timelineLines acts).
    pose proof (timelineLines_rendered acts) as HR.
    pose proof (Rendered_length _ _ _ HR) as HL.
    repeat split; try assumption.
    rewrite HL. apply count_valid_pos.
    exists (entryOfAction a). split; [apply in_map; exact Hin | exact Hv].
  - intros (d & Hin & Hv). exists (dialogueTimelineLines ds).
    pose proof (dialogueTimelineLines_rendered ds) as HR.
    pose proof (Rendered_length _ _ _ HR) as HL.
    repeat split; try assumption.
    rewrite HL. apply count_valid_pos.
    exists (entryOfDialogue d). split; [apply in_map; exact Hin | exact Hv].
Qed.

(** C7: the camera part and the tone part are omitted exactly when
    the value is the empty string or exactly "Automatic"; for any other
    value the part is there once and is the fixed label followed by the
    value as supplied. *)
Theorem C7_preference_parts (i : VeoPromptInput) :
  Spec.preference_block (lit "CAMERA MOVEMENT PREFERENCE: ")
    (cameraMovement i) (filter isCameraPart (parts i))
  /\ Spec.preference_block (lit "TONE PREFERENCE: ")
       (tone i) (filter isTonePart (parts i)).
Proof.
  rewrite filter_camera_parts, filter_tone_parts.
  split; apply preferenceParts_spec.
Qed.

(** C10: for every entry with a valid text, the rendered line shows
    the start and end time as they are, untrimmed, whenever they are not
    the empty string; "0" and "?" stand in only for the empty string. *)
Theorem C10_defaults_only_for_empty
    (acts : list Action.t) (a : Action.t)
    (ds : list TimedDialogue.t) (d : TimedDialogue.t) :
  (In a acts -> trim (Action.description a) <> [] ->
   exists start stop,
     In (lit "- " ++ start ++ [EN_DASH] ++ stop ++ lit " sec: "
         ++ trim (Action.description a)) (timelineLines acts)
     /\ ((Action.startTime a = [] /\ start = lit "0")
         \/ (Action.startTime a <> [] /\ start = Action.startTime a))
     /\ ((Action.endTime a = [] /\ stop = lit "?")
         \/ (Action.endTime a <> [] /\ stop = Action.endTime a)))
  /\ (In d ds -> trim (TimedDialogue.dialogueText d) <> [] ->
      exists start stop,
        In (lit "- " ++ start ++ [EN_DASH] ++ stop ++ lit " sec: "
            ++ [DQUOTE] ++ trim (TimedDialogue.dialogueText d) ++ [DQUOTE])
          (dialogueTimelineLines ds)
        /\ ((TimedDialogue.startTime d = [] /\ start = lit "0")
            \/ (TimedDialogue.startTime d <> []
                /\ start = TimedDialogue.startTime d))
        /\ ((TimedDialogue.endTime d = [] /\ stop = lit "?")
            \/ (TimedDialogue.endTime d <> []
                /\ stop = TimedDialogue.endTime d))).
Proof.
  split.
  - intros Ha Hva.
    exists (or_else (Action.startTime a) (lit "0")),
      (or_else (Action.endTime a) (lit "?")).
    split.
    + unfold timelineLines.
      apply (in_map actionLine). apply filter_In. split; [exact Ha|].
      apply truthy_true; exact Hva.
    + split.
      * destruct (Action.startTime a) as [|c r];
          [left; split; reflexivity | right; split; [discriminate | reflexivity]].
      * destruct (Action.endTime a) as [|c r];
          [left; split; reflexivity | right; split; [discriminate | reflexivity]].
  - intros Hd Hvd.
    exists (or_else (TimedDialogue.startTime d) (lit "0")),
      (or_else (TimedDialogue.endTime d) (lit "?")).
    split.
    + unfold dialogueTimelineLines.
      apply (in_map dialogueLine). apply filter_In. split; [exact Hd|].
      apply truthy_true; exact Hvd.
    + split.
      * destruct (TimedDialogue.startTime d) as [|c r];
          [left; split; reflexivity | right; split; [discriminate | reflexivity]].
      * destruct (TimedDialogue.endTime d) as [|c r];
          [left; split; reflexivity | right; split; [discriminate | reflexivity]].
Qed.

(** C4: if the API_KEY credential is absent (or empty), the call fails
    at once, for every input: its promise is rejected with an Error whose
    message is the configuration message itself, without the "Failed to
    generate prompt: " prefix, which the caller displays as it is; no
    request is made and nothing else happens. *)
Theorem C4_missing_key_fails_first (w : World) (i : VeoPromptInput) :
  API_KEY w = None \/ API_KEY w = Some [] ->
  outcome (gen w i)
  = Throw (ErrorObject
             (lit "API key is missing. Please set the API_KEY environment variable."))
  /\ trace (gen w i) = []
  /\ requests (trace (gen w i)) = []
  /\ startsWith MSG_API_KEY PREFIX = false
  /\ forall f : FormState,
       handle w f
       = ([], {| generatedJson := [];
                 error := lit "API key is missing. Please set the API_KEY environment variable.";
                 isLoading := false |}).
Proof.
  intros H.
  assert (Hk : key_missing w = true)
    by (unfold key_missing; destruct H as [-> | ->]; reflexivity).
  rewrite (gen_key_missing _ _ w i Hk).
  repeat split.
  intros f. unfold handleGenerate.
  rewrite (gen_key_missing _ _ w (formInput f) Hk). reflexivity.
Qed.

(** C5 (amended): if the API_KEY credential is present, every action
    description and every dialogue text is empty after trimming and no
    image is supplied, the call fails at once: its promise is rejected
    with an Error whose message is the input message itself, which the
    caller displays as it is; no request is made. *)
Theorem C5_no_content_fails_after_key (w : World) (i : VeoPromptInput) :
  key_missing w = false ->
  (forall a, In a (actions i) -> trim (Action.description a) = []) ->
  (forall d, In d (timedDialogues i) ->
             trim (TimedDialogue.dialogueText d) = []) ->
  image i = None ->
  outcome (gen w i)
  = Throw (ErrorObject
             (lit "Action timeline, dialogue timeline, or an image is required."))
  /\ trace (gen w i) = []
  /\ requests (trace (gen w i)) = []
  /\ startsWith MSG_INPUT PREFIX = false
  /\ displayedError (ErrorObject MSG_INPUT) = MSG_INPUT.
Proof.
  intros Hk Ha Hd Him.
  assert (Hi : inputAccepted i = false).
  { unfold inputAccepted. rewrite Him. simpl isSome.
    rewrite !orb_false_iff. repeat split.
    - apply existsb_false_forall. intros a Hin.
      apply truthy_false. apply Ha; exact Hin.
    - apply existsb_false_forall. intros d Hin.
      apply truthy_false. apply Hd; exact Hin. }
  rewrite (gen_input_refused _ _ w i Hk Hi). repeat split.
Qed.

(** C6: for every response text that starts neither with an opening
    brace nor with an opening bracket, the promise is rejected with the
    string "Failed to generate prompt: The API did not return a valid JSON
    format." and [JSON.parse] is never called. *)
Theorem C6_non_json_rejected_unparsed
    (w : World) (i : VeoPromptInput) (text : jsstring) :
  key_missing w = false -> inputAccepted i = true ->
  generateContent w (theRequest i) = ApiResponds text ->
  startsWith text (lit "{") = false ->
  startsWith text (lit "[") = false ->
  outcome (gen w i)
  = Throw (StringValue
             (lit "Failed to generate prompt: "
              ++ lit "The API did not return a valid JSON format."))
  /\ parsed_texts (trace (gen w i)) = [].
Proof.
  intros Hk Hi Hapi H1 H2.
  assert (Hd : looksLikeJSON text = false)
    by (unfold looksLikeJSON; rewrite H1, H2; reflexivity).
  rewrite (gen_not_json _ _ w i text Hk Hi Hapi Hd). split; reflexivity.
Qed.

(** C8: for every response text that passes the delimiter check, if
    the text parses the promise resolves with
    [JSON.stringify(parsed, null, 2)], and if it does not parse the
    promise is rejected. *)
Theorem C8_pretty_print_or_error
    (w : World) (i : VeoPromptInput) (text : jsstring) :
  key_missing w = false -> inputAccepted i = true ->
  generateContent w (theRequest i) = ApiResponds text ->
  looksLikeJSON text = true ->
  match JSON_parse text with
  | Some parsedJson => outcome (gen w i) = Normal (stringify parsedJson 2)
  | None =>
      outcome (gen w i)
      = Throw (StringValue (PREFIX ++ syntaxErrorMessage text))
  end.
Proof.
  intros Hk Hi Hapi Hd. destruct (JSON_parse text) as [v|] eqn:Hp.
  - rewrite (gen_parsed _ _ w i text v Hk Hi Hapi Hd Hp). reflexivity.
  - rewrite (gen_parse_fails _ _ w i text Hk Hi Hapi Hd Hp). reflexivity.
Qed.

(** C9: the rejection value has a different type in the two error
    classes. The two guards reject with an Error object, which a caller
    testing [err instanceof Error], as [handleGenerate] does, shows by its
    message. After the guards the promise resolves only when the response
    text passes the delimiter check and parses; every failure there (the
    call rejecting, a text that is no JSON, a text that does not parse)
    rejects with a plain string, which is no instance of Error, so that
    caller shows its fallback for an unknown error instead. *)
Theorem C9_rejection_types_differ (w : World) (i : VeoPromptInput) :
  (key_missing w = true
   /\ outcome (gen w i) = Throw (ErrorObject MSG_API_KEY)
   /\ instanceofError (ErrorObject MSG_API_KEY) = true
   /\ displayedError (ErrorObject MSG_API_KEY) = MSG_API_KEY)
  \/ (key_missing w = false /\ inputAccepted i = false
      /\ outcome (gen w i) = Throw (ErrorObject MSG_INPUT)
      /\ instanceofError (ErrorObject MSG_INPUT) = true
      /\ displayedError (ErrorObject MSG_INPUT) = MSG_INPUT)
  \/ (key_missing w = false /\ inputAccepted i = true
      /\ match generateContent w (theRequest i) with
         | ApiRejects reason =>
             outcome (gen w i) = Throw (StringValue (rejectionOf reason))
             /\ instanceofError (StringValue (rejectionOf reason)) = false
             /\ displayedError (StringValue (rejectionOf reason))
                = MSG_UNEXPECTED
         | ApiResponds text =>
             if looksLikeJSON text then
               match JSON_parse text with
               | Some parsedJson =>
                   outcome (gen w i) = Normal (stringify parsedJson 2)
               | None =>
                   outcome (gen w i)
                   = Throw (StringValue (PREFIX ++ syntaxErrorMessage text))
                   /\ instanceofError
                        (StringValue (PREFIX ++ syntaxErrorMessage text))
                      = false
                   /\ displayedError
                        (StringValue (PREFIX ++ syntaxErrorMessage text))
                      = MSG_UNEXPECTED
               end
             else
               outcome (gen w i)
               = Throw (StringValue (PREFIX ++ MSG_NOT_JSON))
               /\ instanceofError (StringValue (PREFIX ++ MSG_NOT_JSON))
                  = false
               /\ displayedError (StringValue (PREFIX ++ MSG_NOT_JSON))
                  = MSG_UNEXPECTED
         end).
Proof.
  destruct (key_missing w) eqn:Hk.
  { left. rewrite (gen_key_missing _ _ w i Hk). repeat split. }
  right. destruct (inputAccepted i) eqn:Hi.
  2:{ left. rewrite (gen_input_refused _ _ w i Hk Hi). repeat split. }
  right. split; [reflexivity|]. split; [reflexivity|].
  destruct (generateContent w (theRequest i)) as [reason|text] eqn:Hapi.
  { rewrite (gen_api_rejects _ _ w i reason Hk Hi Hapi). repeat split. }
  destruct (looksLikeJSON text) eqn:Hd.
  2:{ rewrite (gen_not_json _ _ w i text Hk Hi Hapi Hd). repeat split. }
  destruct (JSON_parse text) as [v|] eqn:Hp.
  - rewrite (gen_parsed _ _ w i text v Hk Hi Hapi Hd Hp). reflexivity.
  - rewrite (gen_parse_fails _ _ w i text Hk Hi Hapi Hd Hp). repeat split.
Qed.

(** C1 (amended): a response whose text is syntactically valid JSON
    (starting with an opening brace or bracket) but lacks a required field
    of the schema is not rejected: the promise resolves with the
    pretty-printed text. The schema is sent to the provider with the
    request and is not checked on the response. *)
Theorem C1_missing_field_is_accepted
    (w : World) (i : VeoPromptInput) (text : jsstring) (v : JSValue) :
  key_missing w = false -> inputAccepted i = true ->
  generateContent w (theRequest i) = ApiResponds text ->
  looksLikeJSON text = true ->
  JSON_parse text = Some v ->
  hasRequiredFields veoPromptSchema v = false ->
  outcome (gen w i) = Normal (stringify v 2)
  /\ trace (gen w i) = [EvGenerateContent (theRequest i); EvJSONparse text]
  /\ responseSchema (config (theRequest i)) = veoPromptSchema.
Proof.
  intros Hk Hi Hapi Hd Hp _.
  rewrite (gen_parsed _ _ w i text v Hk Hi Hapi Hd Hp). repeat split.
Qed.

End Claims.

(* ================================================================== *)
(** ** The claims at concrete inputs *)

(** The example of the spec's section 8: two text blocks, in order. *)
Example knight_parts :
  parts knightInput
  = [ Text (lit "ACTION TIMELINE:" ++ [LF] ++ lit "- 0" ++ [EN_DASH]
            ++ lit "2 sec: Knight walks");
      Text (lit "DIALOGUE TIMELINE (IN INDONESIAN):" ++ [LF] ++ lit "- 0"
            ++ [EN_DASH] ++ lit "2 sec: " ++ qlit "'Mau pergi kemana?'") ].
Proof. vm_compute. reflexivity. Qed.

Example trim_examples :
  trim (lit "  Knight walks ") = lit "Knight walks"
  /\ trim [9; 10; 13; 160; 65279; 8232] = []
  /\ trim (lit "a  b") = lit "a  b".
Proof. repeat split. Qed.

Example stringify_indents_by_two :
  JSON_stringify exampleNumberToString
    (JObject [(lit "a", JArray [JNumber (lit "1"); JObject []])]) 2
  = join [LF] [qlit "{"; qlit "  'a': ["; qlit "    1,"; qlit "    {}";
               qlit "  ]"; qlit "}"].
Proof. vm_compute. reflexivity. Qed.

Example parse_orders_keys :
  JSON_parse (qlit "{ 'b' : 1, '10' : 2, 'b' : 3, '9' : [ ] }")
  = Some (JObject [ (lit "9", JArray []); (lit "10", JNumber (lit "2"));
                    (lit "b", JNumber (lit "3")) ]).
Proof. vm_compute. reflexivity. Qed.

Example parse_refuses :
  JSON_parse (qlit "{'prompt':") = None
  /\ JSON_parse (qlit "[1,]") = None
  /\ JSON_parse (qlit "[01]") = None
  /\ JSON_parse (qlit "{} x") = None.
Proof. repeat split. Qed.

(** C1, counterexample: a well-formed response of seventeen fields, without
    [aspect_ratio], is accepted and pretty-printed. *)
Lemma C1_counterexample :
  looksLikeJSON responseWithoutAspectRatio = true
  /\ JSON_parse responseWithoutAspectRatio = Some parsedWithoutAspectRatio
  /\ has_prop (lit "aspect_ratio")
       (match parsedWithoutAspectRatio with
        | JObject props => props
        | _ => []
        end) = false
  /\ hasRequiredFields veoPromptSchema parsedWithoutAspectRatio = false
  /\ run_example answeringWorld knightInput
     = ([ EvGenerateContent (theRequest knightInput);
          EvJSONparse responseWithoutAspectRatio ],
        Normal prettyWithoutAspectRatio).
Proof. repeat split; vm_compute; reflexivity. Qed.

(** C1 (amended) at that response. *)
Lemma C1_witness :
  hasRequiredFields veoPromptSchema parsedWithoutAspectRatio = false
  /\ outcome (run_example answeringWorld knightInput)
     = Normal (JSON_stringify exampleNumberToString parsedWithoutAspectRatio 2).
Proof.
  split; [reflexivity|].
  apply (C1_missing_field_is_accepted exampleNumberToString
           exampleSyntaxErrorMessage answeringWorld knightInput
           responseWithoutAspectRatio parsedWithoutAspectRatio);
    vm_compute; reflexivity.
Defined.

(** C3 at a timeline of one valid and one blank action, and at one of two
    valid dialogues. *)
Lemma C3_witness :
  (exists ls,
     timeline [blankStartAction; Action.mk [] [] (lit "  ")] = join [LF] ls
     /\ length ls = 1%nat)
  /\ (exists ls,
        dialogueTimeline [blankEndDialogue; blankEndDialogue] = join [LF] ls
        /\ length ls = 2%nat).
Proof.
  destruct (C3_one_line_per_valid_entry
              [blankStartAction; Action.mk [] [] (lit "  ")]
              [blankEndDialogue; blankEndDialogue]) as [HA HD].
  split.
  - destruct HA as (ls & Ht & _ & Hl & _).
    + exists blankStartAction. split; [left; reflexivity | discriminate].
    + exists ls. split; [exact Ht | exact Hl].
  - destruct HD as (ls & Ht & _ & Hl & _).
    + exists blankEndDialogue. split; [left; reflexivity | discriminate].
    + exists ls. split; [exact Ht | exact Hl].
Defined.

(** C4 at a world with no credential. *)
Lemma C4_witness :
  API_KEY unconfiguredWorld = None
  /\ run_example unconfiguredWorld knightInput
     = ([], Throw (ErrorObject MSG_API_KEY)).
Proof.
  split; [reflexivity|].
  destruct (C4_missing_key_fails_first exampleNumberToString
              exampleSyntaxErrorMessage unconfiguredWorld knightInput
              (or_introl eq_refl)) as (Ho & Ht & _).
  rewrite (surjective_pairing (run_example unconfiguredWorld knightInput)).
  unfold outcome, trace in Ho, Ht. rewrite Ho, Ht. reflexivity.
Defined.

(** C5, counterexample: with no credential, the blank form fails with the
    configuration message, not with the input message. *)
Lemma C5_counterexample :
  hasValidAction (actions blankInput) = false
  /\ hasValidDialogue (timedDialogues blankInput) = false
  /\ image blankInput = None
  /\ run_example unconfiguredWorld blankInput
     = ([], Throw (ErrorObject MSG_API_KEY))
  /\ str_eqb MSG_API_KEY MSG_INPUT = false.
Proof. repeat split. Qed.

(** C5 (amended) at the blank form in a configured world. *)
Lemma C5_witness :
  key_missing answeringWorld = false
  /\ outcome (run_example answeringWorld blankInput)
     = Throw (ErrorObject MSG_INPUT)
  /\ trace (run_example answeringWorld blankInput) = [].
Proof.
  split; [reflexivity|].
  destruct (C5_no_content_fails_after_key exampleNumberToString
              exampleSyntaxErrorMessage answeringWorld blankInput)
    as (Ho & Ht & _).
  - reflexivity.
  - intros a [<- | []]. reflexivity.
  - intros d [<- | []]. reflexivity.
  - reflexivity.
  - split; [exact Ho | exact Ht].
Defined.

(** C6 at the response text "not json". *)
Lemma C6_witness :
  startsWith (lit "not json") (lit "{") = false
  /\ startsWith (lit "not json") (lit "[") = false
  /\ outcome (run_example proseWorld knightInput)
     = Throw (StringValue
                (lit "Failed to generate prompt: The API did not return a valid JSON format."))
  /\ parsed_texts (trace (run_example proseWorld knightInput)) = [].
Proof.
  split; [reflexivity|]. split; [reflexivity|].
  apply (C6_non_json_rejected_unparsed exampleNumberToString
           exampleSyntaxErrorMessage proseWorld knightInput (lit "not json"));
    reflexivity.
Defined.

(** C8 at a response that parses and at one that is cut off. *)
Lemma C8_witness :
  looksLikeJSON responseWithoutAspectRatio = true
  /\ outcome (run_example answeringWorld knightInput)
     = Normal (JSON_stringify exampleNumberToString parsedWithoutAspectRatio 2)
  /\ looksLikeJSON (qlit "{'prompt':") = true
  /\ outcome (run_example truncatedWorld knightInput)
     = Throw (StringValue
                (PREFIX ++ exampleSyntaxErrorMessage (qlit "{'prompt':"))).
Proof.
  split; [reflexivity|]. split.
  - apply (C8_pretty_print_or_error exampleNumberToString
             exampleSyntaxErrorMessage answeringWorld knightInput
             responseWithoutAspectRatio); reflexivity.
  - split; [reflexivity|].
    apply (C8_pretty_print_or_error exampleNumberToString
             exampleSyntaxErrorMessage truncatedWorld knightInput
             (qlit "{'prompt':")); reflexivity.
Defined.

(** C10 at a start time of one space and an end time of two. *)
Lemma C10_witness :
  Action.startTime blankStartAction = lit " "
  /\ TimedDialogue.endTime blankEndDialogue = lit "  "
  /\ (exists start stop,
        In (lit "- " ++ start ++ [EN_DASH] ++ stop ++ lit " sec: "
            ++ lit "Knight walks") (timelineLines [blankStartAction])
        /\ start = lit " " /\ stop = lit "soon")
  /\ (exists start stop,
        In (lit "- " ++ start ++ [EN_DASH] ++ stop ++ lit " sec: "
            ++ qlit "'Mau pergi kemana?'")
          (dialogueTimelineLines [blankEndDialogue])
        /\ start = lit "0" /\ stop = lit "  ").
Proof.
  split; [reflexivity|]. split; [reflexivity|].
  destruct (C10_defaults_only_for_empty
              [blankStartAction] blankStartAction
              [blankEndDialogue] blankEndDialogue) as [HA HD].
  destruct HA as (s1 & e1 & Hin1 & Hs1 & He1);
    [left; reflexivity | discriminate |].
  destruct HD as (s2 & e2 & Hin2 & Hs2 & He2);
    [left; reflexivity | discriminate |].
  split.
  - exists s1, e1. split; [exact Hin1|]. split.
    + destruct Hs1 as [[H _] | [_ H]]; [discriminate H | exact H].
    + destruct He1 as [[H _] | [_ H]]; [discriminate H | exact H].
  - exists s2, e2. split; [exact Hin2|]. split.
    + destruct Hs2 as [[_ H] | [H _]]; [exact H | exfalso; apply H; reflexivity].
    + destruct He2 as [[H _] | [_ H]]; [discriminate H | exact H].
Defined.

(** The caller on the three kinds of failure: the guards' messages are
    shown, the requester's are replaced by the fallback. *)
Example handleGenerate_examples :
  error (snd (handleGenerate exampleNumberToString exampleSyntaxErrorMessage
                refusingWorld
                (mkForm [Action.mk [] [] (lit "Knight walks")] [] None None
                   (lit "Automatic") [] (lit "Automatic") [])))
  = lit "An unexpected error occurred."
  /\ outcome (run_example refusingWorld knightInput)
     = Throw (StringValue (lit "Failed to generate prompt: 429 quota exceeded"))
  /\ error (snd (handleGenerate exampleNumberToString exampleSyntaxErrorMessage
                   unconfiguredWorld
                   (mkForm [Action.mk [] [] (lit "Knight walks")] [] None None
                      (lit "Automatic") [] (lit "Automatic") [])))
     = MSG_API_KEY.
Proof. repeat split. Qed.

Example parse_number_examples :
  parse_number (lit "-12.50e+3,") = Some (lit "-12.50e+3", lit ",")
  /\ parse_number (lit "0123") = Some (lit "0", lit "123")
  /\ parse_number (lit "-") = None
  /\ parse_number (lit "1.e3") = None
  /\ parse_number (lit "1e") = None
  /\ parse_number (lit ".5") = None.
Proof. repeat split. Qed.

(* ================================================================== *)
(** ** Trimming *)

Lemma trimStart_idempotent (s : jsstring) :
  trimStart (trimStart s) = trimStart s.
Proof.
  induction s as [|c r IH]; [reflexivity|]. simpl.
  destruct (isTrimmed c) eqn:E; [exact IH|]. simpl. rewrite E. reflexivity.
Qed.

(** What [trimStart] leaves starts with a code unit it keeps. *)
Lemma trimStart_head (s : jsstring) (c : N) (r : jsstring) :
  trimStart s = c :: r -> isTrimmed c = false.
Proof.
  induction s as [|x s IH]; simpl; [discriminate|].
  destruct (isTrimmed x) eqn:E; [exact IH|].
  intros H; injection H as <- _. exact E.
Qed.

Lemma trimStart_snoc (l : jsstring) (c : N) :
  isTrimmed c = false -> trimStart (l ++ [c]) = trimStart l ++ [c].
Proof.
  intros Hc. induction l as [|x l IH]; simpl.
  - rewrite Hc. reflexivity.
  - destruct (isTrimmed x); [exact IH | reflexivity].
Qed.

Lemma trimEnd_cons (c : N) (r : jsstring) :
  isTrimmed c = false -> trimEnd (c :: r) = c :: trimEnd r.
Proof.
  intros Hc. unfold trimEnd. simpl rev.
  rewrite (trimStart_snoc _ _ Hc), rev_app_distr. reflexivity.
Qed.

Lemma trimEnd_idempotent (s : jsstring) : trimEnd (trimEnd s) = trimEnd s.
Proof.
  unfold trimEnd. rewrite rev_involutive, trimStart_idempotent. reflexivity.
Qed.

Lemma trim_idempotent (s : jsstring) : trim (trim s) = trim s.
Proof.
  unfold trim. destruct (trimStart s) as [|c r] eqn:E; [reflexivity|].
  pose proof (trimStart_head _ _ _ E) as Hc.
  rewrite (trimEnd_cons _ _ Hc). simpl trimStart. rewrite Hc.
  rewrite (trimEnd_cons _ _ Hc), trimEnd_idempotent. reflexivity.
Qed.

Lemma or_else_idempotent (s d : jsstring) :
  d <> [] -> or_else (or_else s d) d = or_else s d.
Proof.
  intros Hd. destruct s as [|c r]; [|reflexivity].
  rewrite or_else_empty. apply or_else_nonempty; exact Hd.
Qed.

(* ================================================================== *)
(** ** The normal form of an input *)

Lemma actionLine_normal (a : Action.t) :
  actionLine (normalAction a) = actionLine a.
Proof.
  unfold actionLine, normalAction; simpl.
  rewrite !or_else_idempotent by discriminate.
  rewrite trim_idempotent. reflexivity.
Qed.

Lemma dialogueLine_normal (d : TimedDialogue.t) :
  dialogueLine (normalDialogue d) = dialogueLine d.
Proof.
  unfold dialogueLine, normalDialogue; simpl.
  rewrite !or_else_idempotent by discriminate.
  rewrite trim_idempotent. reflexivity.
Qed.

Lemma filter_map_normalAction (acts : list Action.t) :
  let valid := fun a => truthy (trim (Action.description a)) in
  filter valid (map normalAction (filter valid acts))
  = map normalAction (filter valid acts).
Proof.
  simpl. induction acts as [|a acts IH]; [reflexivity|]. simpl.
  destruct (truthy (trim (Action.description a))) eqn:E; [|exact IH].
  simpl. rewrite trim_idempotent, E, IH. reflexivity.
Qed.

Lemma filter_map_normalDialogue (ds : list TimedDialogue.t) :
  let valid := fun d => truthy (trim (TimedDialogue.dialogueText d)) in
  filter valid (map normalDialogue (filter valid ds))
  = map normalDialogue (filter valid ds).
Proof.
  simpl. induction ds as [|d ds IH]; [reflexivity|]. simpl.
  destruct (truthy (trim (TimedDialogue.dialogueText d))) eqn:E; [|exact IH].
  simpl. rewrite trim_idempotent, E, IH. reflexivity.
Qed.

Lemma timelineLines_normal (acts : list Action.t) :
  timelineLines
    (map normalAction
       (filter (fun a => truthy (trim (Action.description a))) acts))
  = timelineLines acts.
Proof.
  unfold timelineLines. rewrite filter_map_normalAction, map_map.
  apply map_ext. exact actionLine_normal.
Qed.

Lemma dialogueTimelineLines_normal (ds : list TimedDialogue.t) :
  dialogueTimelineLines
    (map normalDialogue
       (filter (fun d => truthy (trim (TimedDialogue.dialogueText d))) ds))
  = dialogueTimelineLines ds.
Proof.
  unfold dialogueTimelineLines. rewrite filter_map_normalDialogue, map_map.
  apply map_ext. exact dialogueLine_normal.
Qed.

Lemma hasValidAction_normal (acts : list Action.t) :
  hasValidAction
    (map normalAction
       (filter (fun a => truthy (trim (Action.description a))) acts))
  = hasValidAction acts.
Proof.
  unfold hasValidAction.
  induction acts as [|a acts IH]; [reflexivity|]. simpl.
  destruct (truthy (trim (Action.description a))) eqn:E; [|exact IH].
  simpl. rewrite trim_idempotent, E. reflexivity.
Qed.

Lemma hasValidDialogue_normal (ds : list TimedDialogue.t) :
  hasValidDialogue
    (map normalDialogue
       (filter (fun d => truthy (trim (TimedDialogue.dialogueText d))) ds))
  = hasValidDialogue ds.
Proof.
  unfold hasValidDialogue.
  induction ds as [|d ds IH]; [reflexivity|]. simpl.
  destruct (truthy (trim (TimedDialogue.dialogueText d))) eqn:E; [|exact IH].
  simpl. rewrite trim_idempotent, E. reflexivity.
Qed.

Lemma parts_normal (i : VeoPromptInput) : parts (normalInput i) = parts i.
Proof.
  rewrite !parts_blocks. unfold normalInput; simpl.
  unfold actionParts, dialogueParts, timeline, dialogueTimeline.
  rewrite hasValidAction_normal, hasValidDialogue_normal.
  rewrite timelineLines_normal, dialogueTimelineLines_normal. reflexivity.
Qed.

Lemma inputAccepted_normal (i : VeoPromptInput) :
  inputAccepted (normalInput i) = inputAccepted i.
Proof.
  unfold inputAccepted, normalInput; simpl.
  rewrite hasValidAction_normal, hasValidDialogue_normal. reflexivity.
Qed.

(* ================================================================== *)
(** ** What [JSON.parse] returns for a text that passed the check *)

Lemma parse_containers (fuel : nat) :
  (forall acc s v r, parse_elements fuel acc s = Parsed v r ->
                     isObjectOrArray v = true)
  /\ (forall acc s v r, parse_members fuel acc s = Parsed v r ->
                        isObjectOrArray v = true).
Proof.
  induction fuel as [|fuel (IHe & IHm)].
  { split; intros; discriminate. }
  split.
  - intros acc s v r H. cbn [parse_elements] in H.
    destruct (parse_value fuel (skip_ws s)) as [v' r'| |]; try discriminate.
    destruct (skip_ws r') as [|c r'']; [discriminate|].
    destruct (c =? chr ","); [exact (IHe _ _ _ _ H)|].
    destruct (c =? chr "]"); [|discriminate].
    injection H as <- _. reflexivity.
  - intros acc s v r H. cbn [parse_members] in H.
    destruct (skip_ws s) as [|q r0]; [discriminate|].
    destruct (q =? DQUOTE); [|discriminate].
    destruct (parse_chars r0) as [[k r1]|]; [|discriminate].
    destruct (skip_ws r1) as [|c r2]; [discriminate|].
    destruct (c =? chr ":"); [|discriminate].
    destruct (parse_value fuel (skip_ws r2)) as [v' r3| |]; try discriminate.
    destruct (skip_ws r3) as [|c' r4]; [discriminate|].
    destruct (c' =? chr ","); [exact (IHm _ _ _ _ H)|].
    destruct (c' =? chr "}"); [|discriminate].
    injection H as <- _. reflexivity.
Qed.

Lemma looksLikeJSON_head (text : jsstring) :
  looksLikeJSON text = true ->
  exists s, text = chr "{" :: s \/ text = chr "[" :: s.
Proof.
  unfold looksLikeJSON. destruct text as [|c s]; [discriminate|].
  cbn [startsWith lit]. rewrite !andb_true_r, orb_true_iff, !N.eqb_eq.
  intros [<- | <-]; exists s; [left | right]; reflexivity.
Qed.

Lemma parse_value_container (fuel : nat) (text : jsstring) (v : JSValue)
    (r : jsstring) :
  looksLikeJSON text = true ->
  parse_value fuel text = Parsed v r -> isObjectOrArray v = true.
Proof.
  intros Hd H. destruct (looksLikeJSON_head _ Hd) as (s & [-> | ->]);
    destruct fuel as [|fuel]; try discriminate;
    destruct (parse_containers fuel) as (He & Hm);
    cbn [parse_value] in H.
  - change (chr "{" =? chr "{") with true in H. cbv iota in H.
    destruct (skip_ws s) as [|c' r']; [discriminate|].
    destruct (c' =? chr "}").
    + injection H as <- _. reflexivity.
    + exact (Hm _ _ _ _ H).
  - change (chr "[" =? chr "{") with false in H.
    change (chr "[" =? chr "[") with true in H. cbv iota in H.
    destruct (skip_ws s) as [|c' r']; [discriminate|].
    destruct (c' =? chr "]").
    + injection H as <- _. reflexivity.
    + exact (He _ _ _ _ H).
Qed.

Lemma JSON_parse_container (text : jsstring) (v : JSValue) :
  looksLikeJSON text = true -> JSON_parse text = Some v ->
  isObjectOrArray v = true.
Proof.
  intros Hd H. unfold JSON_parse in H.
  assert (Hw : skip_ws text = text)
    by (destruct (looksLikeJSON_head _ Hd) as (s & [-> | ->]); reflexivity).
  rewrite Hw in H.
  destruct (parse_value (parse_fuel text) text) as [v' r| |] eqn:E;
    try discriminate.
  destruct (skip_ws r); [|discriminate]. injection H as <-.
  exact (parse_value_container _ _ _ _ Hd E).
Qed.

Lemma stringify_container (numberToString : jsstring -> jsstring)
    (v : JSValue) :
  isObjectOrArray v = true ->
  looksLikeJSON (JSON_stringify numberToString v 2) = true.
Proof.
  destruct v as [| | | |elements|props]; try discriminate; intros _.
  - destruct elements; reflexivity.
  - destruct props as [|[k v'] props]; reflexivity.
Qed.

(* ================================================================== *)
(** ** More on the requester and its caller *)

Section RequesterMore.

Variable numberToString : jsstring -> jsstring.
Variable syntaxErrorMessage : jsstring -> jsstring.

Local Abbreviation gen := (generateVeoPrompt numberToString syntaxErrorMessage).
Local Abbreviation handle := (handleGenerate numberToString syntaxErrorMessage).
Local Abbreviation stringify := (JSON_stringify numberToString).

(** The call depends on its input only through the guard and the parts. *)
Lemma gen_ext (w : World) (i i' : VeoPromptInput) :
  inputAccepted i = inputAccepted i' -> parts i = parts i' ->
  gen w i = gen w i'.
Proof.
  intros Ha Hp. unfold generateVeoPrompt. rewrite !second_guard, Ha.
  assert (Hr : theRequest i = theRequest i')
    by (unfold theRequest; rewrite Hp; reflexivity).
  rewrite Hr. reflexivity.
Qed.

(** The four ways a call can end. *)
Lemma outcome_cases (w : World) (i : VeoPromptInput) :
  (key_missing w = true
   /\ outcome (gen w i) = Throw (ErrorObject MSG_API_KEY))
  \/ (key_missing w = false /\ inputAccepted i = false
      /\ outcome (gen w i) = Throw (ErrorObject MSG_INPUT))
  \/ (key_missing w = false /\ inputAccepted i = true
      /\ exists s, outcome (gen w i) = Throw (StringValue s))
  \/ (key_missing w = false /\ inputAccepted i = true
      /\ exists text v,
           generateContent w (theRequest i) = ApiResponds text
           /\ looksLikeJSON text = true
           /\ JSON_parse text = Some v
           /\ outcome (gen w i) = Normal (stringify v 2)).
Proof.
  destruct (key_missing w) eqn:Hk.
  { left. rewrite (gen_key_missing _ _ w i Hk). split; reflexivity. }
  right. destruct (inputAccepted i) eqn:Hi.
  2:{ left. rewrite (gen_input_refused _ _ w i Hk Hi). repeat split. }
  right.
  destruct (generateContent w (theRequest i)) as [reason|text] eqn:Hapi.
  { left. rewrite (gen_api_rejects _ _ w i reason Hk Hi Hapi).
    repeat split. eexists; reflexivity. }
  destruct (looksLikeJSON text) eqn:Hd.
  2:{ left. rewrite (gen_not_json _ _ w i text Hk Hi Hapi Hd).
      repeat split. eexists; reflexivity. }
  destruct (JSON_parse text) as [v|] eqn:Hp.
  - right. rewrite (gen_parsed _ _ w i text v Hk Hi Hapi Hd Hp).
    repeat split. exists text, v. repeat split; assumption.
  - left. rewrite (gen_parse_fails _ _ w i text Hk Hi Hapi Hd Hp).
    repeat split. eexists; reflexivity.
Qed.

Lemma requests_when_accepted (w : World) (i : VeoPromptInput) :
  requests (trace (gen w i))
  = (if key_missing w || negb (inputAccepted i) then [] else [theRequest i]).
Proof.
  destruct (key_missing w) eqn:Hk.
  { rewrite (gen_key_missing _ _ w i Hk). reflexivity. }
  destruct (inputAccepted i) eqn:Hi.
  2:{ rewrite (gen_input_refused _ _ w i Hk Hi). reflexivity. }
  destruct (generateContent w (theRequest i)) as [reason|text] eqn:Hapi.
  { rewrite (gen_api_rejects _ _ w i reason Hk Hi Hapi). reflexivity. }
  destruct (looksLikeJSON text) eqn:Hd.
  2:{ rewrite (gen_not_json _ _ w i text Hk Hi Hapi Hd). reflexivity. }
  destruct (JSON_parse text) as [v|] eqn:Hp.
  - rewrite (gen_parsed _ _ w i text v Hk Hi Hapi Hd Hp). reflexivity.
  - rewrite (gen_parse_fails _ _ w i text Hk Hi Hapi Hd Hp). reflexivity.
Qed.

(** X1: the effects of a call: one request exactly when both guards pass;
    [JSON.parse] called once exactly on a response text that passed the
    delimiter check; [console.error] called once, with the value thrown,
    exactly when something failed after the guards. *)
Theorem requester_effects (w : World) (i : VeoPromptInput) :
  requests (trace (gen w i))
  = (if key_missing w || negb (inputAccepted i) then [] else [theRequest i])
  /\ parsed_texts (trace (gen w i))
     = (if key_missing w || negb (inputAccepted i) then []
        else match generateContent w (theRequest i) with
             | ApiResponds text => if looksLikeJSON text then [text] else []
             | ApiRejects _ => []
             end)
  /\ logged (trace (gen w i))
     = (if key_missing w || negb (inputAccepted i) then []
        else match generateContent w (theRequest i) with
             | ApiRejects reason => [reason]
             | ApiResponds text =>
                 if looksLikeJSON text then
                   match JSON_parse text with
                   | Some _ => []
                   | None => [ErrorObject (syntaxErrorMessage text)]
                   end
                 else [ErrorObject MSG_NOT_JSON]
             end).
Proof.
  destruct (key_missing w) eqn:Hk.
  { rewrite (gen_key_missing _ _ w i Hk). repeat split. }
  destruct (inputAccepted i) eqn:Hi.
  2:{ rewrite (gen_input_refused _ _ w i Hk Hi). repeat split. }
  simpl orb. cbv iota.
  destruct (generateContent w (theRequest i)) as [reason|text] eqn:Hapi.
  { rewrite (gen_api_rejects _ _ w i reason Hk Hi Hapi). repeat split. }
  destruct (looksLikeJSON text) eqn:Hd.
  2:{ rewrite (gen_not_json _ _ w i text Hk Hi Hapi Hd). repeat split. }
  destruct (JSON_parse text) as [v|] eqn:Hp.
  - rewrite (gen_parsed _ _ w i text v Hk Hi Hapi Hd Hp). repeat split.
  - rewrite (gen_parse_fails _ _ w i text Hk Hi Hapi Hd Hp). repeat split.
Qed.

(** X2: whenever the promise resolves, the response parsed to an object or an
    array, and the resolved string is its two-space rendering, which again
    starts with an opening brace or bracket (so it is never empty). *)
Theorem resolved_text_is_json_container
    (w : World) (i : VeoPromptInput) (result : jsstring) :
  outcome (gen w i) = Normal result ->
  looksLikeJSON result = true
  /\ exists text v,
       generateContent w (theRequest i) = ApiResponds text
       /\ JSON_parse text = Some v
       /\ isObjectOrArray v = true
       /\ result = stringify v 2.
Proof.
  intros H.
  destruct (outcome_cases w i)
    as [(_ & Ho) | [(_ & _ & Ho) | [(_ & _ & s & Ho)
        | (_ & _ & text & v & Hapi & Hd & Hp & Ho)]]];
    rewrite Ho in H; try discriminate.
  injection H as <-.
  pose proof (JSON_parse_container _ _ Hd Hp) as Hc.
  split; [apply stringify_container; exact Hc|].
  exists text, v. repeat split; assumption.
Qed.

(** X3: dropping the blank rows, trimming the texts and writing the defaults
    "0" and "?" into empty start and end times changes nothing: the call
    makes the same request and ends the same way; and an input so
    normalised is its own normal form. *)
Theorem normal_form_is_equivalent (w : World) (i : VeoPromptInput) :
  gen w (normalInput i) = gen w i
  /\ theRequest (normalInput i) = theRequest i
  /\ normalInput (normalInput i) = normalInput i.
Proof.
  split; [|split].
  - apply gen_ext; [apply inputAccepted_normal | apply parts_normal].
  - unfold theRequest. rewrite parts_normal. reflexivity.
  - unfold normalInput at 1 3. simpl. f_equal.
    + rewrite filter_map_normalAction, map_map. apply map_ext.
      intros a. unfold normalAction; simpl.
      rewrite !or_else_idempotent by discriminate.
      rewrite trim_idempotent. reflexivity.
    + rewrite filter_map_normalDialogue, map_map. apply map_ext.
      intros d. unfold normalDialogue; simpl.
      rewrite !or_else_idempotent by discriminate.
      rewrite trim_idempotent. reflexivity.
Qed.

Lemma parts_head (i : VeoPromptInput) :
  match parts i with
  | [] => inputAccepted i = false
  | p :: rest => isContentPart p = inputAccepted i /\ (length rest <= 5)%nat
  end.
Proof.
  rewrite parts_blocks. unfold inputAccepted, imageParts, actionParts,
    dialogueParts, preferenceParts.
  destruct (image i) as [img|]; simpl isSome.
  { rewrite !orb_true_r. simpl app. split; [reflexivity|].
    destruct (hasValidAction _), (hasValidDialogue _), (_ && _), (_ && _);
      simpl; lia. }
  destruct (hasValidAction (actions i)).
  { simpl app. split.
    - cbn [isContentPart]. rewrite startsWith_app. reflexivity.
    - destruct (hasValidDialogue _), (_ && _), (_ && _); simpl; lia. }
  destruct (hasValidDialogue (timedDialogues i)).
  { simpl app. split.
    - cbn [isContentPart]. rewrite startsWith_app. apply orb_true_r.
    - destruct (_ && _), (_ && _); simpl; lia. }
  destruct (_ && _); [|destruct (_ && _)]; simpl app.
  - split; [reflexivity|]. destruct (_ && _); simpl; lia.
  - split; [reflexivity | simpl; lia].
  - reflexivity.
Qed.

(** X4: a request never consists of preferences alone: the parts of every
    request a call makes start with the image or with a timeline block,
    and there are at most six of them. *)
Theorem requests_open_with_content (w : World) (i : VeoPromptInput) :
  Forall
    (fun req =>
       exists p rest,
         contents req = p :: rest
         /\ isContentPart p = true
         /\ (length rest <= 5)%nat)
    (requests (trace (gen w i))).
Proof.
  rewrite requests_when_accepted.
  destruct (key_missing w); [constructor|].
  destruct (inputAccepted i) eqn:Hi; [|constructor].
  constructor; [|constructor].
  pose proof (parts_head i) as H. unfold theRequest; simpl contents.
  destruct (parts i) as [|p rest]; [congruence|].
  destruct H as [Hp Hl]. exists p, rest. rewrite Hp, Hi. repeat split.
  exact Hl.
Qed.

(** X5: when a call of [generateVeoPrompt] settles, [handleGenerate]
    turns the spinner off and sets exactly one of two things, whatever
    other handlers did while the call was under way: on success the
    result, which is never empty, leaving the error as it stands; on
    failure the error, one of three fixed messages, leaving the result as
    it stands. What the endpoint or the parser said is never shown. *)
Theorem handleGenerate_outcome
    (w : World) (i : VeoPromptInput) (p : Page) (k : nat) :
  nth_error (pending p) k = Some (outcome (gen w i)) ->
  isLoading (app (handleGenerateSettle p k)) = false
  /\ form (handleGenerateSettle p k) = form p
  /\ ((outcome (gen w i)
       = Normal (generatedJson (app (handleGenerateSettle p k)))
       /\ truthy (generatedJson (app (handleGenerateSettle p k))) = true
       /\ error (app (handleGenerateSettle p k)) = error (app p))
      \/ ((exists err,
              outcome (gen w i) = Throw err
              /\ error (app (handleGenerateSettle p k)) = displayedError err)
          /\ generatedJson (app (handleGenerateSettle p k))
             = generatedJson (app p)
          /\ (error (app (handleGenerateSettle p k)) = MSG_API_KEY
              \/ error (app (handleGenerateSettle p k)) = MSG_INPUT
              \/ error (app (handleGenerateSettle p k)) = MSG_UNEXPECTED))).
Proof.
  intros Hk. unfold handleGenerateSettle. rewrite Hk.
  pose proof (outcome_cases w i) as Hc.
  destruct (outcome (gen w i)) as [result|err]; simpl.
  - split; [reflexivity|]. split; [reflexivity|]. left.
    split; [reflexivity|]. split; [|reflexivity].
    destruct Hc as [(_ & Ho) | [(_ & _ & Ho) | [(_ & _ & s & Ho)
        | (_ & _ & text & v & _ & Hd & Hp & Ho)]]];
      try discriminate. injection Ho as ->.
    pose proof (stringify_container numberToString v
                  (JSON_parse_container _ _ Hd Hp)) as Hs.
    destruct (looksLikeJSON_head _ Hs) as (s & [-> | ->]); reflexivity.
  - split; [reflexivity|]. split; [reflexivity|]. right.
    split; [exists err; split; reflexivity|]. split; [reflexivity|].
    destruct Hc as [(_ & Ho) | [(_ & _ & Ho) | [(_ & _ & s & Ho)
        | (_ & _ & text & v & _ & _ & _ & Ho)]]];
      try discriminate; injection Ho as ->; auto.
Qed.

End RequesterMore.

(* ================================================================== *)
(** ** The entry lists of the form *)

Lemma updateAt_spec {A} (f : A -> A) (l : list A) :
  forall index,
    match updateAt index f l with
    | Some l' =>
        (index < length l)%nat
        /\ length l' = length l
        /\ forall j,
             nth_error l' j
             = if (j =? index)%nat then option_map f (nth_error l j)
               else nth_error l j
    | None => (length l <= index)%nat
    end.
Proof.
  induction l as [|x r IH]; intros index.
  - destruct index; simpl; lia.
  - destruct index as [|n]; simpl.
    + split; [lia|]. split; [reflexivity|]. intros [|j]; reflexivity.
    + specialize (IH n). destruct (updateAt n f r) as [r'|].
      * destruct IH as (Hlt & Hlen & Hnth). split; [lia|].
        split; [simpl; lia|]. intros [|j]; [reflexivity|]. simpl. apply Hnth.
      * lia.
Qed.

Lemma filterIndex_removes {A} (index : nat) (l : list A) :
  forall i,
    filterIndex (fun j => negb (j =? index)%nat) i l
    = if (index <? i)%nat then l else removeAt (index - i) l.
Proof.
  unfold removeAt. induction l as [|x r IH]; intros i.
  - cbn [filterIndex]. destruct (index <? i)%nat; [reflexivity|].
    rewrite firstn_nil. reflexivity.
  - simpl filterIndex. rewrite IH.
    destruct (i =? index)%nat eqn:Ei; simpl negb; cbv iota.
    + apply Nat.eqb_eq in Ei. subst i.
      assert (H1 : (index <? S index)%nat = true) by (apply Nat.ltb_lt; lia).
      assert (H2 : (index <? index)%nat = false) by (apply Nat.ltb_ge; lia).
      rewrite H1, H2, Nat.sub_diag. reflexivity.
    + apply Nat.eqb_neq in Ei.
      destruct (index <? i)%nat eqn:El.
      * apply Nat.ltb_lt in El.
        assert (H1 : (index <? S i)%nat = true) by (apply Nat.ltb_lt; lia).
        rewrite H1. reflexivity.
      * apply Nat.ltb_ge in El.
        assert (H1 : (index <? S i)%nat = false) by (apply Nat.ltb_ge; lia).
        rewrite H1.
        replace (index - i)%nat with (S (index - S i)) by lia.
        reflexivity.
Qed.

Lemma removeAt_length {A} (k : nat) (l : list A) :
  length (removeAt k l)
  = if (k <? length l)%nat then (length l - 1)%nat else length l.
Proof.
  unfold removeAt. rewrite length_app, length_firstn, length_skipn.
  destruct (k <? length l)%nat eqn:E;
    [apply Nat.ltb_lt in E | apply Nat.ltb_ge in E]; lia.
Qed.

Lemma setActionField_get (a : Action.t) (field field' : ActionField)
    (value : jsstring) :
  getActionField (setActionField a field value) field'
  = if sameActionField field' field then value else getActionField a field'.
Proof. destruct field, field'; reflexivity. Qed.

Lemma setDialogueField_get (d : TimedDialogue.t)
    (field field' : DialogueField) (value : jsstring) :
  getDialogueField (setDialogueField d field value) field'
  = if sameDialogueField field' field then value
    else getDialogueField d field'.
Proof. destruct field, field'; reflexivity. Qed.

(** X6: an edit of a field returns a new list exactly when the index has
    a row, and then writes that field of that row and nothing else: the
    rows keep their number and order, the other rows and the other fields
    of the row keep their values. With an index that has no row the handler
    ends by a TypeError, before any state is set. *)
Theorem field_edit_writes_one_field
    (actions : list Action.t) (timedDialogues : list TimedDialogue.t)
    (index : nat) (value : jsstring)
    (afield : ActionField) (dfield : DialogueField) :
  match handleActionChange actions index afield value with
  | Some l =>
      (index < length actions)%nat
      /\ length l = length actions
      /\ forall j field,
           option_map (fun a => getActionField a field) (nth_error l j)
           = if (j =? index)%nat && sameActionField field afield
             then option_map (fun _ => value) (nth_error actions j)
             else option_map (fun a => getActionField a field)
                    (nth_error actions j)
  | None => (length actions <= index)%nat
  end
  /\ match handleDialogueChange timedDialogues index dfield value with
     | Some l =>
         (index < length timedDialogues)%nat
         /\ length l = length timedDialogues
         /\ forall j field,
              option_map (fun d => getDialogueField d field) (nth_error l j)
              = if (j =? index)%nat && sameDialogueField field dfield
                then option_map (fun _ => value) (nth_error timedDialogues j)
                else option_map (fun d => getDialogueField d field)
                       (nth_error timedDialogues j)
     | None => (length timedDialogues <= index)%nat
     end.
Proof.
  split.
  - unfold handleActionChange.
    pose proof (updateAt_spec (fun a => setActionField a afield value)
                  actions index) as H.
    destruct (updateAt index _ actions) as [l|]; [|exact H].
    destruct H as (Hlt & Hlen & Hnth). split; [exact Hlt|].
    split; [exact Hlen|].
    intros j field. rewrite Hnth.
    destruct (j =? index)%nat; [|reflexivity].
    destruct (nth_error actions j) as [a|]; simpl;
      [|destruct (sameActionField field afield); reflexivity].
    rewrite setActionField_get.
    destruct (sameActionField field afield); reflexivity.
  - unfold handleDialogueChange.
    pose proof (updateAt_spec (fun d => setDialogueField d dfield value)
                  timedDialogues index) as H.
    destruct (updateAt index _ timedDialogues) as [l|]; [|exact H].
    destruct H as (Hlt & Hlen & Hnth). split; [exact Hlt|].
    split; [exact Hlen|].
    intros j field. rewrite Hnth.
    destruct (j =? index)%nat; [|reflexivity].
    destruct (nth_error timedDialogues j) as [d|]; simpl;
      [|destruct (sameDialogueField field dfield); reflexivity].
    rewrite setDialogueField_get.
    destruct (sameDialogueField field dfield); reflexivity.
Qed.

Lemma remove_row_spec {A} (index : nat) (l : list A) :
  (if (1 <? length l)%nat
   then filterIndex (fun j => negb (j =? index)%nat) 0 l
   else l)
  = (if (1 <? length l)%nat
     then firstn index l ++ skipn (S index) l else l)
  /\ length (if (1 <? length l)%nat
             then filterIndex (fun j => negb (j =? index)%nat) 0 l
             else l)
     = (if (1 <? length l)%nat && (index <? length l)%nat
        then (length l - 1)%nat else length l).
Proof.
  rewrite filterIndex_removes.
  change (index <? 0)%nat with false. cbv iota.
  rewrite Nat.sub_0_r. split; [reflexivity|].
  destruct (1 <? length l)%nat; [|reflexivity].
  rewrite removeAt_length. reflexivity.
Qed.

Lemma remove_row_nonempty {A} (index : nat) (l : list A) :
  l <> [] ->
  (if (1 <? length l)%nat
   then filterIndex (fun j => negb (j =? index)%nat) 0 l
   else l) <> [].
Proof.
  intros Hl H. apply (f_equal (@length A)) in H.
  rewrite (proj2 (remove_row_spec index l)) in H.
  destruct l as [|x l]; [congruence|]. simpl length in H.
  destruct (1 <? S (length l))%nat eqn:E1; simpl in H; [|lia].
  apply Nat.ltb_lt in E1.
  destruct (index <? S (length l))%nat; simpl in H; lia.
Qed.

(** X7: removing a row takes out exactly the row at the index and keeps the
    others in order, but only while more than one row is left: the last
    row is never removed, and an index with no row removes nothing. *)
Theorem row_removal_keeps_one_row
    (actions : list Action.t) (timedDialogues : list TimedDialogue.t)
    (index : nat) :
  removeAction actions index
  = (if (1 <? length actions)%nat
     then firstn index actions ++ skipn (S index) actions
     else actions)
  /\ length (removeAction actions index)
     = (if (1 <? length actions)%nat && (index <? length actions)%nat
        then (length actions - 1)%nat else length actions)
  /\ removeDialogue timedDialogues index
     = (if (1 <? length timedDialogues)%nat
        then firstn index timedDialogues ++ skipn (S index) timedDialogues
        else timedDialogues)
  /\ length (removeDialogue timedDialogues index)
     = (if (1 <? length timedDialogues)%nat
           && (index <? length timedDialogues)%nat
        then (length timedDialogues - 1)%nat else length timedDialogues).
Proof.
  destruct (remove_row_spec index actions) as [H1 H2].
  destruct (remove_row_spec index timedDialogues) as [H3 H4].
  repeat split; assumption.
Qed.

(* ================================================================== *)
(** ** The pages the component can reach *)

Lemma forallb_negb_existsb {A} (g : A -> bool) (l : list A) :
  forallb (fun x => negb (g x)) l = negb (existsb g l).
Proof.
  induction l as [|x l IH]; [reflexivity|]. simpl. rewrite IH.
  destruct (g x); reflexivity.
Qed.

Lemma includes_valid_truthy (type : jsstring) :
  includes validTypes type = true -> truthy type = true.
Proof.
  unfold includes, validTypes. cbn [existsb].
  rewrite !orb_true_iff, !str_eqb_eq.
  intros [-> | [-> | [-> | H]]]; try reflexivity. discriminate.
Qed.

Lemma removeAt_Forall {A} (P : A -> Prop) (l : list A) :
  forall k, Forall P l -> Forall P (removeAt k l).
Proof.
  unfold removeAt. induction l as [|x l IH]; intros k H.
  - rewrite firstn_nil. destruct k; constructor.
  - inversion H as [|? ? Hx Hl]; subst. destruct k as [|k]; simpl.
    + exact Hl.
    + constructor; [exact Hx | apply IH; exact Hl].
Qed.

Lemma shownErrors_empty : In [] shownErrors.
Proof. left; reflexivity. Qed.

Lemma shownErrors_file_type : In MSG_FILE_TYPE shownErrors.
Proof. right; left; reflexivity. Qed.

Lemma shownErrors_read : In MSG_READ shownErrors.
Proof. right; right; left; reflexivity. Qed.

Lemma shownErrors_displayed (err : Thrown) :
  settlesQuietly (Throw err) -> In (displayedError err) shownErrors.
Proof.
  destruct err as [message|s|]; simpl.
  - intros ->. right; right; right; left; reflexivity.
  - intros _. right; right; right; right; left; reflexivity.
  - intros _. right; right; right; right; left; reflexivity.
Qed.

(** With an image state as the upload leaves it, the image is passed on
    exactly when a base64 payload is stored. *)
Lemma formImage_consistent (f : FormState) :
  (forall m, imageMimeType f = Some m -> includes validTypes m = true) ->
  (imageMimeType f = None -> imageBase64 f = None) ->
  isSome (formImage f) = truthyOpt (imageBase64 f).
Proof.
  intros Hm Hn. unfold formImage.
  destruct (imageMimeType f) as [m|].
  - destruct (imageBase64 f) as [d|]; [|reflexivity].
    rewrite (includes_valid_truthy m (Hm m eq_refl)), andb_true_r.
    simpl. destruct (truthy d); reflexivity.
  - rewrite (Hn eq_refl). reflexivity.
Qed.

Lemma disabled_iff_refused (p : Page) :
  (forall m, imageMimeType (form p) = Some m ->
             includes validTypes m = true) ->
  (imageMimeType (form p) = None -> imageBase64 (form p) = None) ->
  isGenerateDisabled p
  = negb (inputAccepted (formInput (form p))) || isLoading (app p).
Proof.
  intros Hm Hn. unfold isGenerateDisabled, inputAccepted, formInput.
  simpl actions. simpl timedDialogues. simpl image.
  rewrite (formImage_consistent _ Hm Hn), !forallb_negb_existsb.
  unfold hasValidAction, hasValidDialogue.
  destruct (existsb _ (formActions (form p))),
    (existsb _ (formTimedDialogues (form p))),
    (truthyOpt (imageBase64 (form p))); reflexivity.
Qed.

Section AppMachineFacts.

Variable numberToString : jsstring -> jsstring.
Variable syntaxErrorMessage : jsstring -> jsstring.

Local Abbreviation gen := (generateVeoPrompt numberToString syntaxErrorMessage).
Local Abbreviation after := (pageAfter numberToString syntaxErrorMessage).
Local Abbreviation next := (step numberToString syntaxErrorMessage).

(** A call made with an accepted input never ends with the input error. *)
Lemma accepted_settles_quietly (w : World) (i : VeoPromptInput) :
  inputAccepted i = true -> settlesQuietly (outcome (gen w i)).
Proof.
  intros Hi.
  destruct (outcome_cases numberToString syntaxErrorMessage w i)
    as [(_ & Ho) | [(_ & Hi' & _) | [(_ & _ & s & Ho)
        | (_ & _ & text & v & _ & Hd & Hp & Ho)]]];
    try congruence; rewrite Ho; simpl; try reflexivity.
  pose proof (stringify_container numberToString v
                (JSON_parse_container _ _ Hd Hp)) as Hs.
  destruct (looksLikeJSON_head _ Hs) as (s & [-> | ->]); reflexivity.
Qed.

Lemma initialPage_invariant : pageInvariant initialPage.
Proof.
  unfold pageInvariant, initialPage; simpl.
  repeat split; try discriminate; try constructor; reflexivity.
Qed.

Lemma step_invariant (p : Page) (e : UiEvent) :
  pageInvariant p -> pageInvariant (next p e).
Proof.
  intros (Ha & Hd & Hr & Hm & Hn & Hp & Hq & He).
  destruct e as [index field value| |index|index field value| |index
                 |file|k result|k| |value|value|value|value|w|k|value];
    cbn [step].
  - (* ActionChange *)
    unfold handleActionChange.
    pose proof (updateAt_spec (fun a => setActionField a field value)
                  (formActions (form p)) index) as Hu.
    destruct (updateAt index _ (formActions (form p))) as [l|];
      [|repeat split; assumption].
    destruct Hu as (_ & Hlen & _).
    repeat split; try assumption. simpl.
    intros ->. destruct (formActions (form p)); [congruence | discriminate].
  - (* AddAction *)
    repeat split; try assumption. simpl. unfold addAction.
    intros H. apply app_eq_nil in H as [_ H]. discriminate.
  - (* RemoveAction *)
    repeat split; try assumption. simpl.
    apply remove_row_nonempty. exact Ha.
  - (* DialogueChange *)
    unfold handleDialogueChange.
    pose proof (updateAt_spec (fun d => setDialogueField d field value)
                  (formTimedDialogues (form p)) index) as Hu.
    destruct (updateAt index _ (formTimedDialogues (form p))) as [l|];
      [|repeat split; assumption].
    destruct Hu as (_ & Hlen & _).
    repeat split; try assumption. simpl.
    intros ->.
    destruct (formTimedDialogues (form p)); [congruence | discriminate].
  - (* AddDialogue *)
    repeat split; try assumption. simpl. unfold addDialogue.
    intros H. apply app_eq_nil in H as [_ H]. discriminate.
  - (* RemoveDialogue *)
    repeat split; try assumption. simpl.
    apply remove_row_nonempty. exact Hd.
  - (* ImageChange *)
    unfold handleImageChange. destruct file as [type|];
      [|repeat split; assumption].
    destruct (includes validTypes type) eqn:Et; simpl negb; cbv iota.
    + repeat split; try assumption; simpl.
      * apply Forall_app. split; [exact Hr | constructor; [exact Et | constructor]].
      * exact shownErrors_empty.
    + repeat split; try assumption. exact shownErrors_file_type.
  - (* ReaderLoad *)
    unfold readerOnload.
    destruct (nth_error (reading p) k) as [type|] eqn:Ek;
      [|repeat split; assumption].
    assert (Ht : includes validTypes type = true).
    { apply nth_error_In in Ek. rewrite Forall_forall in Hr. exact (Hr _ Ek). }
    repeat split; try assumption; simpl.
    + apply removeAt_Forall; exact Hr.
    + intros m H; injection H as <-. exact Ht.
    + discriminate.
  - (* ReaderError *)
    unfold readerOnerror.
    destruct (nth_error (reading p) k) as [type|] eqn:Ek;
      [|repeat split; assumption].
    repeat split; try assumption; simpl.
    + apply removeAt_Forall; exact Hr.
    + exact shownErrors_read.
  - (* RemoveImage *)
    repeat split; try assumption; simpl;
      try discriminate; intros; reflexivity.
  - repeat split; assumption.
  - repeat split; assumption.
  - repeat split; assumption.
  - repeat split; assumption.
  - (* ClickGenerate *)
    destruct (isGenerateDisabled p) eqn:Eg; [repeat split; assumption|].
    rewrite (disabled_iff_refused p Hm Hn) in Eg.
    apply orb_false_iff in Eg as [Eacc Eload].
    apply negb_false_iff in Eacc.
    rewrite Eload in Hp. unfold handleGenerateStart.
    destruct (pending p); [|discriminate].
    repeat split; try assumption; simpl.
    + constructor; [|constructor].
      apply accepted_settles_quietly; exact Eacc.
    + exact shownErrors_empty.
  - (* Settle *)
    unfold handleGenerateSettle.
    destruct (nth_error (pending p) k) as [c|] eqn:Ek;
      [|repeat split; assumption].
    destruct (pending p) as [|c' [|c'' rest]] eqn:Epend.
    + destruct k; discriminate.
    + destruct k as [|k]; [|destruct k; discriminate].
      injection Ek as <-. inversion Hq as [|? ? Hc _]; subst.
      destruct c' as [result|err];
        repeat split; simpl; try assumption; try reflexivity;
        try apply Forall_nil.
      exact (shownErrors_displayed err Hc).
    + destruct (isLoading (app p)); discriminate.
  - (* EditGeneratedJson *)
    repeat split; assumption.
Qed.

Lemma fold_step_invariant (history : list UiEvent) :
  forall p, pageInvariant p -> pageInvariant (fold_left next history p).
Proof.
  induction history as [|e history IH]; intros p H; [exact H|].
  simpl. apply IH. apply step_invariant. exact H.
Qed.

Lemma pageAfter_invariant (history : list UiEvent) :
  pageInvariant (after history).
Proof. apply fold_step_invariant. exact initialPage_invariant. Qed.

End AppMachineFacts.

(* ================================================================== *)
(** ** What holds of every reachable page *)

Lemma split_on_no_sep (sep : N) (s : jsstring) :
  forallb (fun c => negb (c =? sep)) s = true -> split_on sep s = [s].
Proof.
  induction s as [|c r IH]; [reflexivity|]. simpl.
  intros H. apply andb_true_iff in H as [Hc Hr].
  apply negb_true_iff in Hc. rewrite Hc, (IH Hr). reflexivity.
Qed.

Lemma split_on_app (sep : N) (a b : jsstring) :
  forallb (fun c => negb (c =? sep)) a = true ->
  split_on sep (a ++ sep :: b) = a :: split_on sep b.
Proof.
  induction a as [|c r IH]; simpl.
  - intros _. rewrite N.eqb_refl. reflexivity.
  - intros H. apply andb_true_iff in H as [Hc Hr].
    apply negb_true_iff in Hc. rewrite Hc, (IH Hr). reflexivity.
Qed.

Lemma data_url_split (type payload : jsstring) :
  includes validTypes type = true ->
  forallb (fun c => negb (c =? chr ",")) payload = true ->
  nth_error
    (split_on (chr ",") (lit "data:" ++ type ++ lit ";base64," ++ payload)) 1
  = Some payload.
Proof.
  intros Ht Hp.
  assert (Hsplit :
    lit "data:" ++ type ++ lit ";base64," ++ payload
    = (lit "data:" ++ type ++ lit ";base64") ++ chr "," :: payload).
  { rewrite <- !app_assoc. reflexivity. }
  rewrite Hsplit, split_on_app, (split_on_no_sep _ _ Hp); [reflexivity|].
  unfold includes, validTypes in Ht. cbn [existsb] in Ht.
  rewrite !orb_true_iff, !str_eqb_eq in Ht.
  destruct Ht as [-> | [-> | [-> | H]]]; try reflexivity. discriminate.
Qed.

Section AppMachineTheorems.

Variable numberToString : jsstring -> jsstring.
Variable syntaxErrorMessage : jsstring -> jsstring.

Local Abbreviation gen := (generateVeoPrompt numberToString syntaxErrorMessage).
Local Abbreviation handle := (handleGenerate numberToString syntaxErrorMessage).
Local Abbreviation after := (pageAfter numberToString syntaxErrorMessage).
Local Abbreviation next := (step numberToString syntaxErrorMessage).
Local Abbreviation invariant :=
  (pageAfter_invariant numberToString syntaxErrorMessage).

(** X8: whatever the user does, each timeline keeps at least one row. *)
Theorem rows_never_run_out (history : list UiEvent) :
  (0 < length (formActions (form (after history))))%nat
  /\ (0 < length (formTimedDialogues (form (after history))))%nat.
Proof.
  destruct (invariant history) as (Ha & Hd & _).
  destruct (formActions (form (after history))); [congruence|].
  destruct (formTimedDialogues (form (after history))); [congruence|].
  simpl; lia.
Qed.

(** X9: an image of a type the upload refuses never reaches a request: every
    image part the form would send has one of the three accepted types,
    and so has the image shown in the preview. *)
Theorem sent_image_has_accepted_type (history : list UiEvent) :
  Forall (fun part => hasValidType part = true)
    (parts (formInput (form (after history))))
  /\ match formImage (form (after history)) with
     | Some img => In (Image.mimeType img) validTypes
     | None => previewSrc (form (after history)) = None
     end
  /\ isSome (previewSrc (form (after history)))
     = isSome (formImage (form (after history))).
Proof.
  destruct (invariant history) as (_ & _ & _ & Hm & Hn & _).
  set (f := form (after history)) in *.
  assert (Himg : match formImage f with
                 | Some img => includes validTypes (Image.mimeType img) = true
                 | None => previewSrc f = None
                 end).
  { unfold formImage, previewSrc.
    destruct (imageBase64 f) as [d|], (imageMimeType f) as [m|] eqn:Em;
      simpl; try reflexivity.
    - destruct (truthy d && truthy m); [|reflexivity].
      simpl. apply Hm. reflexivity.
    - rewrite andb_false_r. reflexivity. }
  split.
  - rewrite parts_blocks. repeat (apply Forall_app; split).
    + simpl image. unfold imageParts.
      destruct (formImage f) as [img|]; [|constructor].
      constructor; [exact Himg | constructor; [reflexivity | constructor]].
    + unfold actionParts. destruct (hasValidAction _); repeat constructor.
    + unfold dialogueParts. destruct (hasValidDialogue _); repeat constructor.
    + unfold preferenceParts. destruct (_ && _); repeat constructor.
    + unfold preferenceParts. destruct (_ && _); repeat constructor.
  - split.
    + destruct (formImage f) as [img|]; [|exact Himg].
      unfold includes in Himg. apply existsb_exists in Himg as (t & Hin & Ht).
      apply str_eqb_eq in Ht. subst t. exact Hin.
    + unfold previewSrc, formImage.
      destruct (imageBase64 f) as [d|], (imageMimeType f) as [m|];
        simpl; try reflexivity.
      * destruct (truthy d && truthy m); reflexivity.
      * rewrite andb_false_r. reflexivity.
Qed.

(** X10: the Generate button is disabled exactly when a request is under way
    or the input guard of [generateVeoPrompt] would refuse the form. *)
Theorem button_agrees_with_guard (history : list UiEvent) :
  isGenerateDisabled (after history)
  = negb (inputAccepted (formInput (form (after history))))
    || isLoading (app (after history)).
Proof.
  destruct (invariant history) as (_ & _ & _ & Hm & Hn & _).
  apply disabled_iff_refused; assumption.
Qed.

(** X11: at most one call of [generateVeoPrompt] is under way at any time,
    and one is under way exactly while the spinner is on. *)
Theorem one_call_in_flight (history : list UiEvent) :
  length (pending (after history))
  = (if isLoading (app (after history)) then 1%nat else 0%nat)
  /\ (length (pending (after history)) <= 1)%nat.
Proof.
  destruct (invariant history) as (_ & _ & _ & _ & _ & Hp & _).
  split; [exact Hp|]. rewrite Hp.
  destruct (isLoading (app (after history))); lia.
Qed.

(** X12: the error banner only ever shows one of five texts (none, the two of
    the upload, the missing key, the fallback); the input error of
    [generateVeoPrompt] is not among them, since the button that would
    cause it is disabled. *)
Theorem input_error_is_never_shown (history : list UiEvent) :
  In (error (app (after history))) shownErrors
  /\ includes shownErrors MSG_INPUT = false.
Proof.
  destruct (invariant history) as (_ & _ & _ & _ & _ & _ & _ & He).
  split; [exact He | reflexivity].
Qed.

(** X13: when the read of an accepted file ends with its data URL, the
    preview shows that very URL and the form passes on the file's type
    and the payload after the comma, as the first part of the request. *)
Theorem upload_round_trip
    (p : Page) (k : nat) (type payload : jsstring) :
  nth_error (reading p) k = Some type ->
  includes validTypes type = true ->
  payload <> [] ->
  forallb (fun c => negb (c =? chr ",")) payload = true ->
  let url := lit "data:" ++ type ++ lit ";base64," ++ payload in
  previewSrc (form (readerOnload p k url)) = Some url
  /\ formImage (form (readerOnload p k url)) = Some (Image.mk payload type)
  /\ exists rest,
       parts (formInput (form (readerOnload p k url)))
       = InlineData type payload :: Text IMAGE_CAPTION :: rest.
Proof.
  intros Hk Ht Hne Hp url. unfold readerOnload. rewrite Hk.
  unfold url. rewrite (data_url_split _ _ Ht Hp).
  assert (Htp : truthy payload = true) by (apply truthy_true; exact Hne).
  assert (Htt : truthy type = true) by (apply includes_valid_truthy; exact Ht).
  assert (Hf : formImage
                 (form (withReading (withImage p (Some payload) (Some type))
                          (removeAt k (reading p))))
               = Some (Image.mk payload type)).
  { unfold formImage; simpl. rewrite Htp, Htt. reflexivity. }
  split; [|split].
  - unfold previewSrc; simpl. rewrite Htp, Htt. reflexivity.
  - exact Hf.
  - assert (Hi : image
                   (formInput
                      (form (withReading
                               (withImage p (Some payload) (Some type))
                               (removeAt k (reading p)))))
                 = Some (Image.mk payload type)) by exact Hf.
    rewrite parts_blocks, Hi. cbn [imageParts Image.mimeType Image.data app].
    eexists. reflexivity.
Qed.

(** X14: a click on the enabled button followed by the settling of the call
    leaves the state [handleGenerate] computes in one go, with no call
    under way. *)
Theorem click_then_settle (history : list UiEvent) (w : World) :
  isGenerateDisabled (after history) = false ->
  app (next (next (after history) (ClickGenerate w)) (Settle 0))
  = snd (handle w (form (after history)))
  /\ pending (next (next (after history) (ClickGenerate w)) (Settle 0)) = []
  /\ form (next (next (after history) (ClickGenerate w)) (Settle 0))
     = form (after history).
Proof.
  intros Hg.
  destruct (invariant history) as (_ & _ & _ & _ & _ & Hp & _).
  set (p := after history) in *.
  assert (Hl : isLoading (app p) = false).
  { unfold isGenerateDisabled in Hg. apply orb_false_iff in Hg as [_ H].
    exact H. }
  rewrite Hl in Hp. cbn [step]. rewrite Hg.
  unfold handleGenerateStart, handleGenerateSettle, handleGenerate.
  destruct (pending p); [|discriminate]. simpl.
  unfold outcome.
  destruct (gen w (formInput (form p))) as [t [result|err]]; simpl;
    repeat split.
Qed.

End AppMachineTheorems.

(* ================================================================== *)
(** ** The further properties at concrete inputs *)

(** [resolved_text_is_json_container] at the response of seventeen
    fields. *)
Lemma resolved_text_is_json_container_witness :
  outcome (run_example answeringWorld knightInput)
  = Normal prettyWithoutAspectRatio
  /\ looksLikeJSON prettyWithoutAspectRatio = true.
Proof.
  split; [reflexivity|].
  apply (resolved_text_is_json_container exampleNumberToString
           exampleSyntaxErrorMessage answeringWorld knightInput
           prettyWithoutAspectRatio).
  reflexivity.
Defined.

(** [upload_round_trip] at a PNG file with a short payload. *)
Lemma upload_round_trip_witness :
  nth_error (reading uploadingPage) 0 = Some (lit "image/png")
  /\ previewSrc
       (form (readerOnload uploadingPage 0
                (lit "data:image/png;base64,iVBORw0KGgo=")))
     = Some (lit "data:image/png;base64,iVBORw0KGgo=")
  /\ formImage
       (form (readerOnload uploadingPage 0
                (lit "data:image/png;base64,iVBORw0KGgo=")))
     = Some (Image.mk (lit "iVBORw0KGgo=") (lit "image/png")).
Proof.
  split; [reflexivity|].
  destruct (upload_round_trip uploadingPage 0 (lit "image/png")
              (lit "iVBORw0KGgo=")) as (Hsrc & Himg & _).
  - reflexivity.
  - reflexivity.
  - discriminate.
  - reflexivity.
  - split; [exact Hsrc | exact Himg].
Defined.

(** [click_then_settle] after a description was typed, in a world whose
    endpoint answers. *)
Lemma click_then_settle_witness :
  isGenerateDisabled
    (pageAfter exampleNumberToString exampleSyntaxErrorMessage typedHistory)
  = false
  /\ app (step exampleNumberToString exampleSyntaxErrorMessage
            (step exampleNumberToString exampleSyntaxErrorMessage
               (pageAfter exampleNumberToString exampleSyntaxErrorMessage
                  typedHistory)
               (ClickGenerate answeringWorld))
            (Settle 0))
     = snd (handleGenerate exampleNumberToString exampleSyntaxErrorMessage
              answeringWorld
              (form (pageAfter exampleNumberToString
                       exampleSyntaxErrorMessage typedHistory))).
Proof.
  split; [reflexivity|].
  apply (click_then_settle exampleNumberToString exampleSyntaxErrorMessage
           typedHistory answeringWorld).
  reflexivity.
Defined.

(** A session: type a description, upload a file of a refused type,
    generate in a world without a key. *)
Example session_example :
  let p :=
    pageAfter exampleNumberToString exampleSyntaxErrorMessage
      [ ActionChange 0 ADescription (lit "Knight walks");
        AddAction; RemoveAction 5; RemoveAction 0; RemoveAction 0;
        ImageChange (Some (lit "image/gif")) ] in
  formActions (form p) = [blankAction]
  /\ error (app p) = MSG_FILE_TYPE
  /\ isGenerateDisabled p = true
  /\ reading p = [].
Proof. repeat split. Qed.

(** [handleGenerate_outcome] at a call that settles after an upload was
    refused: the result arrives and the upload's error stays. *)
Lemma handleGenerate_outcome_witness :
  nth_error
    (pending (pageAfter exampleNumberToString exampleSyntaxErrorMessage
                interruptedHistory)) 0
  = Some (outcome
            (run_example answeringWorld
               (formInput
                  (form (pageAfter exampleNumberToString
                           exampleSyntaxErrorMessage typedHistory)))))
  /\ isLoading
       (app (handleGenerateSettle
               (pageAfter exampleNumberToString exampleSyntaxErrorMessage
                  interruptedHistory) 0))
     = false
  /\ generatedJson
       (app (handleGenerateSettle
               (pageAfter exampleNumberToString exampleSyntaxErrorMessage
                  interruptedHistory) 0))
     = prettyWithoutAspectRatio
  /\ error
       (app (handleGenerateSettle
               (pageAfter exampleNumberToString exampleSyntaxErrorMessage
                  interruptedHistory) 0))
     = MSG_FILE_TYPE.
Proof.
  split; [reflexivity|].
  destruct (handleGenerate_outcome exampleNumberToString
              exampleSyntaxErrorMessage answeringWorld
              (formInput
                 (form (pageAfter exampleNumberToString
                          exampleSyntaxErrorMessage typedHistory)))
              (pageAfter exampleNumberToString exampleSyntaxErrorMessage
                 interruptedHistory) 0 eq_refl)
    as (Hl & _ & _).
  split; [exact Hl|]. split; reflexivity.
Defined.
